(** * TRINETRA: alert ingestion, capture-file lifecycle and blacklist

    A shallow embedding of the stateful core of [webapi/main.py] and
    [src/snids.py], with the properties of the ingestion pipeline
    (cursor, fingerprints, bounded history), of the capture-file
    lifecycle and of the blacklist.

    Conventions of the embedding.
    - Python [int] is [Z]; lengths and byte offsets are [nat]; a time
      in seconds is a rational.
    - A file is its sequence of bytes, a [string].  The event log is
      ASCII text, one byte a character; a string inside a JSON value
      is kept to code points below 256, one [ascii] each.
    - The local files of the program form a store.  A read may find a
      file absent or unreadable ([None]).  A write takes effect, and
      is recorded, in order, in a log of effects: the handlers around
      the writes, which swallow an error of the device, are not
      entered, and with that nothing reaches the outermost handler of
      [store_new_alerts].
    - The cursor file and the history file hold what the program puts
      there: a position, and an array of objects.
    - The append to the blacklist file and the reload of the rules
      may raise inside the [try] of [add_ip_to_blacklist]: what goes
      wrong in a call, if anything, is an argument of its model.
    - A value decoded from JSON is a [json]; an object is the list of
      its members in insertion order, as a Python [dict] has them.
    - [json.loads], the clock and the random generator are supplied
      from outside: the decoder as a variable of the section, the
      clock and the generator as arguments indexed by the line being
      processed. *)

From Stdlib Require Import ZArith QArith Ascii List Lia.
From stdpp Require Import gmap strings list pretty sorting.

Import ListNotations.
Local Open Scope Z_scope.

(** ** MD5 ([hashlib.md5]), on 32-bit words held in [Z] *)

Module MD5.

Definition mask32 (x : Z) : Z := Z.land x 0xffffffff.

Definition add32 (x y : Z) : Z := mask32 (x + y).

Definition not32 (x : Z) : Z := Z.lxor x 0xffffffff.

Definition rotl32 (x c : Z) : Z :=
  mask32 (Z.lor (Z.shiftl x c) (Z.shiftr x (32 - c))).

Definition shifts : list Z :=
  [7; 12; 17; 22; 7; 12; 17; 22; 7; 12; 17; 22; 7; 12; 17; 22;
   5; 9; 14; 20; 5; 9; 14; 20; 5; 9; 14; 20; 5; 9; 14; 20;
   4; 11; 16; 23; 4; 11; 16; 23; 4; 11; 16; 23; 4; 11; 16; 23;
   6; 10; 15; 21; 6; 10; 15; 21; 6; 10; 15; 21; 6; 10; 15; 21].

(** [floor (2^32 * |sin (i + 1)|)] for [i] from 0 to 63. *)
Definition sines : list Z :=
  [0xd76aa478; 0xe8c7b756; 0x242070db; 0xc1bdceee; 0xf57c0faf; 0x4787c62a; 0xa8304613; 0xfd469501;
   0x698098d8; 0x8b44f7af; 0xffff5bb1; 0x895cd7be; 0x6b901122; 0xfd987193; 0xa679438e; 0x49b40821;
   0xf61e2562; 0xc040b340; 0x265e5a51; 0xe9b6c7aa; 0xd62f105d; 0x02441453; 0xd8a1e681; 0xe7d3fbc8;
   0x21e1cde6; 0xc33707d6; 0xf4d50d87; 0x455a14ed; 0xa9e3e905; 0xfcefa3f8; 0x676f02d9; 0x8d2a4c8a;
   0xfffa3942; 0x8771f681; 0x6d9d6122; 0xfde5380c; 0xa4beea44; 0x4bdecfa9; 0xf6bb4b60; 0xbebfbc70;
   0x289b7ec6; 0xeaa127fa; 0xd4ef3085; 0x04881d05; 0xd9d4d039; 0xe6db99e5; 0x1fa27cf8; 0xc4ac5665;
   0xf4292244; 0x432aff97; 0xab9423a7; 0xfc93a039; 0x655b59c3; 0x8f0ccc92; 0xffeff47d; 0x85845dd1;
   0x6fa87e4f; 0xfe2ce6e0; 0xa3014314; 0x4e0811a1; 0xf7537e82; 0xbd3af235; 0x2ad7d2bb; 0xeb86d391].

Record state := State { rA : Z; rB : Z; rC : Z; rD : Z }.

Definition init : state :=
  State 0x67452301 0xefcdab89 0x98badcfe 0x10325476.

(** One of the 64 operations of a block: [m] holds its 16 words. *)
Definition step (m : list Z) (st : state) (i : nat) : state :=
  let '(State a b c d) := st in
  let iz := Z.of_nat i in
  let '(f, g) :=
    if iz <? 16 then (Z.lor (Z.land b c) (Z.land (not32 b) d), iz)
    else if iz <? 32 then
      (Z.lor (Z.land d b) (Z.land (not32 d) c), (5 * iz + 1) mod 16)
    else if iz <? 48 then (Z.lxor b (Z.lxor c d), (3 * iz + 5) mod 16)
    else (Z.lxor c (Z.lor b (not32 d)), (7 * iz) mod 16) in
  let f' := add32 (add32 (add32 f a) (nth i sines 0)) (nth (Z.to_nat g) m 0) in
  State d (add32 b (rotl32 f' (nth i shifts 0))) b c.

(** A little-endian word out of four bytes. *)
Definition word_le (bs : list Z) : Z :=
  nth 0 bs 0 + Z.shiftl (nth 1 bs 0) 8
  + Z.shiftl (nth 2 bs 0) 16 + Z.shiftl (nth 3 bs 0) 24.

Definition words_of_block (block : list Z) : list Z :=
  map (fun j => word_le (firstn 4 (skipn (4 * j) block))) (seq 0 16).

Definition compress (st : state) (block : list Z) : state :=
  let st' := fold_left (step (words_of_block block)) (seq 0 64) st in
  State (add32 (rA st) (rA st')) (add32 (rB st) (rB st'))
        (add32 (rC st) (rC st')) (add32 (rD st) (rD st')).

Fixpoint blocks (n : nat) (bytes : list Z) (st : state) : state :=
  match n with
  | O => st
  | S n' => blocks n' (skipn 64 bytes) (compress st (firstn 64 bytes))
  end.

Definition bytes_le (width : nat) (x : Z) : list Z :=
  map (fun j => Z.land (Z.shiftr x (8 * Z.of_nat j)) 0xff) (seq 0 width).

(** The message, a 1 bit, zeros up to 56 modulo 64, and the length in
    bits on 64 bits. *)
Definition pad (msg : list Z) : list Z :=
  let len := Z.of_nat (length msg) in
  let zeros := Z.to_nat ((55 - len) mod 64) in
  msg ++ [0x80] ++ repeat 0 zeros ++ bytes_le 8 ((8 * len) mod 2 ^ 64).

Definition hex_digit (d : Z) : ascii :=
  ascii_of_nat (Z.to_nat (if d <? 10 then 48 + d else 87 + d)).

Definition hex_byte (b : Z) : string :=
  String (hex_digit (Z.shiftr b 4)) (String (hex_digit (Z.land b 15)) "").

Definition digest (msg : list Z) : list Z :=
  let p := pad msg in
  let st := blocks (length p / 64)%nat p init in
  bytes_le 4 (rA st) ++ bytes_le 4 (rB st)
  ++ bytes_le 4 (rC st) ++ bytes_le 4 (rD st).

Definition bytes_of_string (s : string) : list Z :=
  map (fun c => Z.of_nat (nat_of_ascii c)) (String.list_ascii_of_string s).

(** [hashlib.md5(s.encode()).hexdigest()] for ASCII [s]. *)
Definition hexdigest (s : string) : string :=
  fold_right (fun b acc => hex_byte b +:+ acc) "" (digest (bytes_of_string s)).

End MD5.

(** ** JSON values and Python dictionaries *)

(** What [json.loads] returns.  A float is kept as the text
    [json.dumps] prints for it. *)
#[local] Unset Elimination Schemes.
Inductive json :=
| JNull
| JBool (b : bool)
| JInt (n : Z)
| JFloat (repr : string)
| JStr (s : string)
| JArr (items : list json)
| JObj (members : list (string * json)).
#[local] Set Elimination Schemes.

(** A [dict] with string keys, in insertion order. *)
Abbreviation dict := (list (string * json)).

(** [d.get(k)], [None] for a missing key. *)
Fixpoint dict_get (d : dict) (k : string) : option json :=
  match d with
  | [] => None
  | (k', v) :: rest => if decide (k' = k) then Some v else dict_get rest k
  end.

(** [d.get(k, default)]. *)
Definition dict_get_default (d : dict) (k : string) (default : json) : json :=
  from_option id default (dict_get d k).

(** [d[k] = v]: the value is replaced where the key is, a new key goes
    to the end. *)
Fixpoint dict_set (d : dict) (k : string) (v : json) : dict :=
  match d with
  | [] => [(k, v)]
  | (k', v') :: rest =>
      if decide (k' = k) then (k', v) :: rest else (k', v') :: dict_set rest k v
  end.

(** Truth value of a decoded value in a condition. *)
Definition truthy (v : json) : bool :=
  match v with
  | JNull => false
  | JBool b => b
  | JInt n => negb (n =? 0)
  | JFloat r => negb (bool_decide (r = "0.0") || bool_decide (r = "-0.0"))
  | JStr s => negb (bool_decide (s = ""))
  | JArr l => negb (bool_decide (l = []))
  | JObj m => match m with [] => false | _ => true end
  end.

(** ** [json.dumps(v, sort_keys=True)] *)

Module Dumps.

Definition hex4 (n : Z) : string :=
  MD5.hex_byte (Z.shiftr n 8) +:+ MD5.hex_byte (Z.land n 255).

(** One character of a string, with [ensure_ascii]. *)
Definition escape_char (c : ascii) : string :=
  let n := Z.of_nat (nat_of_ascii c) in
  if n =? 34 then "\" +:+ String c ""
  else if n =? 92 then "\\"
  else if n =? 10 then "\n"
  else if n =? 13 then "\r"
  else if n =? 9 then "\t"
  else if n =? 8 then "\b"
  else if n =? 12 then "\f"
  else if (32 <=? n) && (n <=? 126) then String c ""
  else "\u" +:+ hex4 n.

Fixpoint escape (s : string) : string :=
  match s with
  | EmptyString => ""
  | String c rest => escape_char c +:+ escape rest
  end.

Definition quote : string := String "034"%char "".

Definition encode_str (s : string) : string := quote +:+ escape s +:+ quote.

Fixpoint join (sep : string) (parts : list string) : string :=
  match parts with
  | [] => ""
  | [p] => p
  | p :: rest => p +:+ sep +:+ join sep rest
  end.

(** Members in increasing order of key, as [sort_keys] puts them. *)
Fixpoint insert_member (m : string * string) (sorted : list (string * string))
  : list (string * string) :=
  match sorted with
  | [] => [m]
  | m' :: rest =>
      if String.ltb m.1 m'.1 then m :: sorted else m' :: insert_member m rest
  end.

Definition sort_members (ms : list (string * string)) : list (string * string) :=
  fold_left (fun acc m => insert_member m acc) ms [].

Fixpoint dumps (v : json) : string :=
  match v with
  | JNull => "null"
  | JBool true => "true"
  | JBool false => "false"
  | JInt n => pretty n
  | JFloat r => r
  | JStr s => encode_str s
  | JArr items => "[" +:+ join ", " (map dumps items) +:+ "]"
  | JObj members =>
      let printed := map (fun '(k, x) => (k, dumps x)) members in
      "{" +:+ join ", " (map (fun m => encode_str m.1 +:+ ": " +:+ m.2)
                             (sort_members printed)) +:+ "}"
  end.

End Dumps.

(** ** Fingerprints ([generate_alert_fingerprint]) *)

(** The seven fields the fingerprint is made of, in the order of the
    source; a missing field counts as the empty string. *)
Definition fingerprint_data (alert_obj alert : dict) : dict :=
  [ ("timestamp", dict_get_default alert_obj "timestamp" (JStr ""));
    ("signature", dict_get_default alert "signature" (JStr ""));
    ("signature_id", dict_get_default alert "signature_id" (JStr ""));
    ("severity", dict_get_default alert "severity" (JStr ""));
    ("src_ip", dict_get_default alert_obj "src_ip" (JStr ""));
    ("dest_ip", dict_get_default alert_obj "dest_ip" (JStr ""));
    ("proto", dict_get_default alert_obj "proto" (JStr "")) ].

(** [rnd] is what [random.randint(0, 999999)] returns when it is
    called.  The body raises exactly when the value under ["alert"] is
    not an object, at its first [alert.get]; the handler then answers
    with the random fingerprint. *)
Definition generate_alert_fingerprint (rnd : Z) (alert_obj : dict) : string :=
  match dict_get_default alert_obj "alert" (JObj []) with
  | JObj alert =>
      MD5.hexdigest (Dumps.dumps (JObj (fingerprint_data alert_obj alert)))
  | _ => "random_" +:+ pretty rnd
  end.

(** ** Text of the event log *)

Definition LF : ascii := "010"%char.
Definition CR : ascii := "013"%char.

Fixpoint drop_bytes (n : nat) (s : string) : string :=
  match n, s with
  | O, _ => s
  | S n', String _ rest => drop_bytes n' rest
  | S _, EmptyString => EmptyString
  end.

(** The lines a text-mode file yields when iterated: a line ends at
    LF, at CR LF or at a lone CR, each read as LF; the last line may
    have no end. [cur] is the line being read, backwards. *)
Fixpoint readlines_go (cur : string) (s : string) : list string :=
  match s with
  | EmptyString =>
      match cur with EmptyString => [] | _ => [String.rev cur] end
  | String c rest =>
      if decide (c = LF) then
        String.rev (String LF cur) :: readlines_go "" rest
      else if decide (c = CR) then
        match rest with
        | String c' rest' =>
            if decide (c' = LF)
            then String.rev (String LF cur) :: readlines_go "" rest'
            else String.rev (String LF cur) :: readlines_go "" rest
        | EmptyString => String.rev (String LF cur) :: readlines_go "" rest
        end
      else readlines_go (String c cur) rest
  end.

Definition readlines (s : string) : list string := readlines_go "" s.

(** ASCII white space, as [str.strip] takes it. *)
Definition is_space (c : ascii) : bool :=
  let n := nat_of_ascii c in
  ((9 <=? n) && (n <=? 13) || (28 <=? n) && (n <=? 32))%nat.

Fixpoint lstrip (s : string) : string :=
  match s with
  | String c rest => if is_space c then lstrip rest else s
  | EmptyString => EmptyString
  end.

Definition strip (s : string) : string :=
  String.rev (lstrip (String.rev (lstrip s))).

(** ** The files of the web API *)

(** [eve]: the event log at [EVE_PATH]; [last_processed]: the cursor
    file, holding the position it was last given; [alerts_db]: the
    history at [ALERTS_DB_PATH], an array of objects.  [None] is a
    file that is absent, and for the last two also one that cannot be
    decoded. *)
Record Files := mkFiles {
  eve : option string;
  last_processed : option nat;
  alerts_db : option (list dict)
}.

(** A write to one of the two files the ingestion owns. *)
Inductive write :=
| WritePosition (position : nat)
| WriteHistory (alerts : list dict).

(** The files, and the writes made so far, oldest first. *)
Record Sys := mkSys { files : Files; writes : list write }.

Definition IO (A : Type) : Type := Sys -> A * Sys.

Definition ret {A} (a : A) : IO A := fun s => (a, s).

Definition bind {A B} (m : IO A) (k : A -> IO B) : IO B :=
  fun s => let '(a, s') := m s in k a s'.

Notation "'do' x <- m ; k" := (bind m (fun x => k))
  (at level 10, x name, m at level 100, k at level 200).
Notation "m ;; k" := (bind m (fun _ => k))
  (at level 100, k at level 200, right associativity).

Definition eve_exists : IO bool :=
  fun s => (bool_decide (is_Some (eve (files s))), s).

Definition get_last_processed_position : IO nat :=
  fun s => (default 0%nat (last_processed (files s)), s).

Definition set_last_processed_position (position : nat) : IO unit :=
  fun s =>
    (tt, {| files := {| eve := eve (files s);
                        last_processed := Some position;
                        alerts_db := alerts_db (files s) |};
            writes := writes s ++ [WritePosition position] |}).

Definition load_alert_history : IO (list dict) :=
  fun s => (default [] (alerts_db (files s)), s).

Definition save_alert_history (alerts : list dict) : IO unit :=
  fun s =>
    (tt, {| files := {| eve := eve (files s);
                        last_processed := last_processed (files s);
                        alerts_db := Some alerts |};
            writes := writes s ++ [WriteHistory alerts] |}).

(** [f.seek(last_pos)], the lines from there to the end of the file,
    and [f.tell()] after them: a position past the end stays where it
    is. *)
Definition read_eve (last_pos : nat) : IO (list string * nat) :=
  fun s =>
    let text := default "" (eve (files s)) in
    ((readlines (drop_bytes last_pos text),
      Nat.max last_pos (String.length text)), s).

(** ** Ingestion ([store_new_alerts]) *)

Definition MAX_ALERTS : nat := Z.to_nat 10000.

(** [l[-n:]] for a positive [n]. *)
Definition keep_last {A} (n : nat) (l : list A) : list A :=
  skipn (length l - n) l.

(** [alert['_fingerprint']] as a string, when the key is there and
    holds one. *)
Definition fingerprint_of (alert : dict) : option string :=
  match dict_get alert "_fingerprint" with
  | Some (JStr s) => Some s
  | _ => None
  end.

(** [alert['_fingerprint']] for an alert of the batch, where the key
    was just set to a string. *)
Definition batch_fingerprint (alert : dict) : string :=
  default "" (fingerprint_of alert).

(** The set built from the loaded history.  An entry without the key
    adds nothing; a value that is not a string is equal to no
    fingerprint of a batch and is left out. *)
Fixpoint existing_fingerprints (history : list dict) : gset string :=
  match history with
  | [] => ∅
  | alert :: rest =>
      match fingerprint_of alert with
      | Some fp => {[fp]} ∪ existing_fingerprints rest
      | None => existing_fingerprints rest
      end
  end.

(** The duplicate filter: an alert is kept when its fingerprint is not
    in the set, and its fingerprint joins the set. *)
Fixpoint filter_unique (existing : gset string) (new_alerts : list dict)
  : list dict :=
  match new_alerts with
  | [] => []
  | alert :: rest =>
      let fp := batch_fingerprint alert in
      if decide (fp ∈ existing) then filter_unique existing rest
      else alert :: filter_unique ({[fp]} ∪ existing) rest
  end.

Section Ingestion.

(** [json.loads]: [None] when it raises. *)
Variable json_loads : string -> option json.

(** [now k]: what [datetime.now().isoformat()] gives while line [k] of
    the read is processed; [rnd k]: what the random generator would
    give there. *)
Variable now : nat -> string.
Variable rnd : nat -> Z.

(** The body of the loop over the lines: the stamped alert to append,
    if any. *)
Definition process_line (k : nat) (line : string) : option dict :=
  match json_loads (strip line) with
  | Some (JObj obj) =>
      if truthy (dict_get_default obj "alert" JNull) then
        let obj1 := dict_set obj "stored_at" (JStr (now k)) in
        Some (dict_set obj1 "_fingerprint"
                (JStr (generate_alert_fingerprint (rnd k) obj1)))
      else None
  | _ => None
  end.

Fixpoint read_new_alerts (k : nat) (lines : list string) : list dict :=
  match lines with
  | [] => []
  | line :: rest =>
      match process_line k line with
      | Some alert => alert :: read_new_alerts (S k) rest
      | None => read_new_alerts (S k) rest
      end
  end.

Definition store_new_alerts : IO nat :=
  do present <- eve_exists;
  if negb present then ret 0%nat
  else
    do last_pos <- get_last_processed_position;
    do r <- read_eve last_pos;
    let new_alerts := read_new_alerts 0 r.1 in
    let current_pos := r.2 in
    set_last_processed_position current_pos;;
    match new_alerts with
    | [] => ret 0%nat
    | _ =>
        do history <- load_alert_history;
        let existing := existing_fingerprints history in
        let unique_new_alerts := filter_unique existing new_alerts in
        match unique_new_alerts with
        | [] => ret 0%nat
        | _ =>
            let history := history ++ unique_new_alerts in
            let history :=
              if (MAX_ALERTS <? length history)%nat
              then keep_last MAX_ALERTS history else history in
            save_alert_history history;;
            ret (length unique_new_alerts)
        end
    end.

End Ingestion.

(** ** Capture files ([list_csv_files], [cleanup_old_csvs],
    [api_save_csv]) *)

(** A file of a directory: [st_mtime] in seconds, and its bytes. *)
Record csv_file := mkCsv { mtime : Q; content : string }.

(** [CSV_DIR] and [SAVED_DIR], each absent or a map from file name to
    file. *)
Record Storage := mkStorage {
  csv_dir : option (gmap string csv_file);
  saved_dir : option (gmap string csv_file)
}.

Fixpoint starts_with (p s : string) : bool :=
  match p, s with
  | EmptyString, _ => true
  | String a p', String b s' => bool_decide (a = b) && starts_with p' s'
  | String _ _, EmptyString => false
  end.

(** The names [glob("*.csv")] matches. *)
Definition is_csv (name : string) : bool :=
  starts_with (String.rev ".csv") (String.rev name).

Definition Qltb (x y : Q) : bool := negb (Qle_bool y x).

(** [time.time() - (max_age_minutes * 60)]. *)
Definition cutoff_time (time_now : Q) (max_age_minutes : Z) : Q :=
  (time_now - inject_Z (max_age_minutes * 60))%Q.

(** A stable insertion sort: [x] goes before the first [y] with
    [le x y]. *)
Fixpoint insert_sorted {A} (le : A -> A -> bool) (x : A) (l : list A) : list A :=
  match l with
  | [] => [x]
  | y :: rest => if le x y then x :: l else y :: insert_sorted le x rest
  end.

Definition sort_by {A} (le : A -> A -> bool) (l : list A) : list A :=
  fold_right (insert_sorted le) [] l.

(** [sorted(dir.glob("*.csv"))]: the matching files in order of name. *)
Definition glob_csv_sorted (dir : gmap string csv_file)
  : list (string * csv_file) :=
  sort_by (fun a b => String.leb a.1 b.1)
          (filter (fun e => is_csv e.1) (map_to_list dir)).

Record file_info := mkInfo {
  name : string;
  info_mtime : Q;
  saved : bool;
  age_minutes : Q
}.

(** The entry made for the [i]-th file looked at, [clock i] being the
    value of [time.time()] read for its age. *)
Definition info_of (clock : nat -> Q) (is_saved : bool) (i : nat)
    (e : string * csv_file) : file_info :=
  {| name := e.1; info_mtime := mtime e.2; saved := is_saved;
     age_minutes := ((clock i - mtime e.2) / 60)%Q |}.

(** [clock 0] is the reading the cutoff is made of, [clock (S i)] the
    reading for the [i]-th file. *)
Definition list_csv_files (clock : nat -> Q) (include_saved : bool)
    (max_age_minutes : Z) (st : Storage) : list file_info :=
  match csv_dir st with
  | None => []
  | Some dir =>
      let cutoff := cutoff_time (clock O) max_age_minutes in
      let regular := imap (fun i => info_of clock false (S i)) (glob_csv_sorted dir) in
      let recent := filter (fun fi => Qle_bool cutoff (info_mtime fi)) regular in
      let kept :=
        match include_saved, saved_dir st with
        | true, Some sdir =>
            recent ++ imap (fun i => info_of clock true (S (length regular + i)))
                           (glob_csv_sorted sdir)
        | _, _ => recent
        end in
      sort_by (fun a b => Qle_bool (info_mtime b) (info_mtime a)) kept
  end.

(** The files the loop of [cleanup_old_csvs] unlinks. *)
Definition expired (cutoff : Q) (e : string * csv_file) : bool :=
  is_csv e.1 && Qltb (mtime e.2) cutoff.

Definition cleanup_old_csvs (time_now : Q) (max_age_minutes : Z)
    (st : Storage) : nat * Storage :=
  match csv_dir st with
  | None => (O, st)
  | Some dir =>
      let cutoff := cutoff_time time_now max_age_minutes in
      (size (filter (fun e => expired cutoff e) dir),
       {| csv_dir := Some (filter (fun e => negb (expired cutoff e)) dir);
          saved_dir := saved_dir st |})
  end.

Inductive response :=
| Reply (message : string) (file : string) (is_saved : bool)
| HTTPException (status_code : Z) (detail : string).

(** [shutil.copy2(source, target)]: the file with its times, into an
    existing directory; [None] when it raises. *)
Definition copy2 (file : string) (st : Storage) : option Storage :=
  match csv_dir st, saved_dir st with
  | Some dir, Some sdir =>
      match dir !! file with
      | Some f => Some {| csv_dir := Some dir;
                          saved_dir := Some (<[file := f]> sdir) |}
      | None => None
      end
  | _, _ => None
  end.

Definition exists_in (dir : option (gmap string csv_file)) (file : string) : bool :=
  match dir with
  | Some d => bool_decide (is_Some (d !! file))
  | None => false
  end.

(** The text of the exception is left out of the detail of the 500. *)
Definition api_save_csv (file : string) (st : Storage) : response * Storage :=
  if negb (exists_in (csv_dir st) file) then
    (HTTPException 404 "File not found", st)
  else if exists_in (saved_dir st) file then
    (Reply "File already saved" file true, st)
  else
    match copy2 file st with
    | Some st' => (Reply "File saved successfully" file true, st')
    | None => (HTTPException 500 "Failed to save file", st)
    end.

(** The save of a saved file as the design text has it: a success
    whatever the capture directory holds. *)
Definition save_of_saved_succeeds (file : string) (st : Storage) : Prop :=
  exists_in (saved_dir st) file = true ->
  exists message : string,
    (api_save_csv file st).1 = Reply message file true.

(** ** The blacklist ([add_ip_to_blacklist]) *)

Definition BLACKLIST_FILE : string := "/etc/suricata/rules/blacklist.txt".

(** What a call does besides changing the set, in order. *)
Inductive action :=
| Print (text : string)
| Append (text : string)
| Run (command : string).

Definition is_append (a : action) : bool :=
  match a with Append _ => true | _ => false end.

Definition is_run (a : action) : bool :=
  match a with Run _ => true | _ => false end.

(** The set in memory, the bytes of the blacklist file, and the
    actions so far, oldest first. *)
Record Blacklist := mkBlacklist {
  blacklisted_ips : gset string;
  blacklist_txt : string;
  actions : list action
}.

(** What can go wrong inside the [try]: opening or writing the
    blacklist file raises, or the reload raises. [e] is the text of
    the exception. *)
Inductive fault :=
| AppendFails (e : string)
| ReloadFails (e : string).

(** The body runs under the lock, so a call is one step. [outcome]
    is what goes wrong inside the [try], if anything does. When the
    append raises, no byte reaches the file, the address is not added
    to the set and no reload is run: the handler prints the error and
    the call returns. When the reload raises, the line is in the file
    and the address in the set already. *)
Definition add_ip_to_blacklist (outcome : option fault) (ip : string)
    (st : Blacklist) : Blacklist :=
  if decide (ip ∈ blacklisted_ips st) then
    {| blacklisted_ips := blacklisted_ips st;
       blacklist_txt := blacklist_txt st;
       actions := actions st
         ++ [Print ("[BLACKLIST] " +:+ ip +:+ " already blacklisted.")] |}
  else
    let line := ip +:+ String LF "" in
    match outcome with
    | Some (AppendFails e) =>
        {| blacklisted_ips := blacklisted_ips st;
           blacklist_txt := blacklist_txt st;
           actions := actions st
             ++ [Print ("[ERROR] Failed to blacklist " +:+ ip
                        +:+ ": " +:+ e)] |}
    | _ =>
        {| blacklisted_ips := {[ip]} ∪ blacklisted_ips st;
           blacklist_txt := blacklist_txt st +:+ line;
           actions := actions st
             ++ [Append line;
                 Print ("[BLACKLIST] IP " +:+ ip +:+ " has been added to "
                        +:+ BLACKLIST_FILE +:+ ".");
                 Run "sudo suricatasc -c 'reload-rules'"]
             ++ match outcome with
                | Some (ReloadFails e) =>
                    [Print ("[ERROR] Failed to blacklist " +:+ ip
                            +:+ ": " +:+ e)]
                | _ => []
                end |}
    end.

Definition append_fails (outcome : option fault) : bool :=
  match outcome with Some (AppendFails _) => true | _ => false end.

(** Two calls in a row for an address that is not in the set, as the
    design text has them: whatever happens inside the calls, the file
    ends one line longer and the set one address larger, and the
    second call does nothing but print its notice. *)
Definition add_twice_appends_once (o1 o2 : option fault) (ip : string)
    (st : Blacklist) : Prop :=
  ip ∉ blacklisted_ips st ->
  let st1 := add_ip_to_blacklist o1 ip st in
  let st2 := add_ip_to_blacklist o2 ip st1 in
  blacklist_txt st2 = blacklist_txt st +:+ ip +:+ String LF ""
  /\ size (blacklisted_ips st2) = S (size (blacklisted_ips st))
  /\ actions st2
     = actions st1 ++ [Print ("[BLACKLIST] " +:+ ip +:+ " already blacklisted.")].

Definition last_pos_of (s : Sys) : nat := default 0%nat (last_processed (files s)).

Definition eve_text (s : Sys) : string := default "" (eve (files s)).

(** The lines the call reads, and the position it ends at. *)
Definition lines_read (s : Sys) : list string :=
  readlines (drop_bytes (last_pos_of s) (eve_text s)).

Definition end_position (s : Sys) : nat :=
  Nat.max (last_pos_of s) (String.length (eve_text s)).

Definition history_of (s : Sys) : list dict := default [] (alerts_db (files s)).

(** The history as it is written back: the last [MAX_ALERTS]. *)
Definition trim (history : list dict) : list dict :=
  if (MAX_ALERTS <? length history)%nat
  then keep_last MAX_ALERTS history else history.

(** The alerts the duplicate filter drops, by the same loop. *)
Fixpoint rejected_alerts (existing : gset string) (new_alerts : list dict)
  : list dict :=
  match new_alerts with
  | [] => []
  | alert :: rest =>
      let fp := batch_fingerprint alert in
      if decide (fp ∈ existing) then alert :: rejected_alerts existing rest
      else rejected_alerts ({[fp]} ∪ existing) rest
  end.

(** The files after a write, and after each write of a sequence. *)
Definition apply_write (f : Files) (w : write) : Files :=
  match w with
  | WritePosition p =>
      {| eve := eve f; last_processed := Some p; alerts_db := alerts_db f |}
  | WriteHistory h =>
      {| eve := eve f; last_processed := last_processed f; alerts_db := Some h |}
  end.

Fixpoint states_through (f : Files) (ws : list write) : list Files :=
  match ws with
  | [] => []
  | w :: rest => apply_write f w :: states_through (apply_write f w) rest
  end.

Section Batch.

Variable json_loads : string -> option json.
Variable now : nat -> string.
Variable rnd : nat -> Z.

Definition batch_of (s : Sys) : list dict :=
  read_new_alerts json_loads now rnd 0 (lines_read s).

Definition unique_of (s : Sys) : list dict :=
  filter_unique (existing_fingerprints (history_of s)) (batch_of s).

Definition rejected_of (s : Sys) : list dict :=
  rejected_alerts (existing_fingerprints (history_of s)) (batch_of s).

(** The state a call leaves. *)
Definition after_store (s : Sys) : Sys :=
  match unique_of s with
  | [] =>
      {| files := {| eve := eve (files s);
                     last_processed := Some (end_position s);
                     alerts_db := alerts_db (files s) |};
         writes := writes s ++ [WritePosition (end_position s)] |}
  | _ =>
      {| files := {| eve := eve (files s);
                     last_processed := Some (end_position s);
                     alerts_db := Some (trim (history_of s ++ unique_of s)) |};
         writes := writes s ++ [WritePosition (end_position s);
                                WriteHistory (trim (history_of s ++ unique_of s))] |}
  end.

(** The writes of one call, started with none recorded. *)
Definition writes_of (s : Sys) : list write :=
  writes (store_new_alerts json_loads now rnd
            {| files := files s; writes := [] |}).2.

(** The order of persistence as the design text has it: when the call
    stores alerts, every write of the position comes after a write of
    the history. *)
Definition position_saved_after_history (s : Sys) : Prop :=
  unique_of s <> [] ->
  forall (i : nat) (p : nat),
    writes_of s !! i = Some (WritePosition p) ->
    exists (j : nat) (h : list dict),
      (j < i)%nat /\ writes_of s !! j = Some (WriteHistory h).

(** No point of the call at which the new position is on disk while an
    alert the call stores is not. *)
Definition never_position_without_alerts (s : Sys) : Prop :=
  forall f : Files,
    f ∈ states_through (files s) (writes_of s) ->
    last_processed f = Some (end_position s) ->
    forall a : dict,
      a ∈ unique_of s ->
      a ∈ trim (history_of s ++ unique_of s) ->
      a ∈ default [] (alerts_db f).

(** Every rejection by a fingerprint of the history on disk. *)
Definition rejections_from_stored_history (s : Sys) : Prop :=
  forall a : dict,
    a ∈ rejected_of s ->
    exists r : dict,
      r ∈ history_of s /\ fingerprint_of r = Some (batch_fingerprint a).

(** A line that decodes to an object whose ["alert"] is an object. *)
Definition well_formed_line (line : string) : Prop :=
  exists (obj alert : dict),
    json_loads (strip line) = Some (JObj obj)
    /\ dict_get obj "alert" = Some (JObj alert).

End Batch.

(** A line some earlier call turned into an alert that is in
    [history]. *)
Definition stored_from (json_loads : string -> option json)
    (history : list dict) (line : string) : Prop :=
  exists (now0 : nat -> string) (rnd0 : nat -> Z) (k0 : nat) (a0 : dict),
    process_line json_loads now0 rnd0 k0 line = Some a0 /\ a0 ∈ history.

(** ** Records and their canonical fields *)

(** The object under ["alert"], the empty one when the key is
    missing. *)
Definition alert_descriptor (r : dict) : option dict :=
  match dict_get_default r "alert" (JObj []) with
  | JObj a => Some a
  | _ => None
  end.

Definition same_canonical_fields (r1 r2 : dict) : Prop :=
  (forall k : string,
      k ∈ ["timestamp"; "src_ip"; "dest_ip"; "proto"] ->
      dict_get r1 k = dict_get r2 k)
  /\ exists a1 a2 : dict,
      alert_descriptor r1 = Some a1 /\ alert_descriptor r2 = Some a2
      /\ forall k : string,
          k ∈ ["signature"; "signature_id"; "severity"] ->
          dict_get a1 k = dict_get a2 k.

(** ** Sample data *)

Module Sample.

Definition scan (timestamp : string) : json :=
  JObj [ ("alert", JObj [ ("severity", JInt 2);
                          ("signature", JStr "ET SCAN Nmap");
                          ("signature_id", JInt 2000537) ]);
         ("dest_ip", JStr "10.0.0.2");
         ("event_type", JStr "alert");
         ("proto", JStr "TCP");
         ("src_ip", JStr "10.0.0.5");
         ("timestamp", JStr timestamp) ].

Definition flow : json :=
  JObj [ ("event_type", JStr "flow"); ("src_ip", JStr "10.0.0.5") ].

Definition records : list json :=
  [ scan "2024-01-01T00:00:00"; scan "2024-01-01T00:00:07"; flow ].

(** A decoder for the sample log: it undoes [json.dumps] on the sample
    records, whose keys are in order, and fails on any other text. *)
Definition loads (text : string) : option json :=
  find (fun v => bool_decide (Dumps.dumps v = text)) records.

Definition line_of (v : json) : string := Dumps.dumps v +:+ String LF "".

Definition clock (k : nat) : string := "2024-01-02T10:00:0" +:+ pretty k.

Definition dice (k : nat) : Z := 4242 + Z.of_nat k.

(** One alert, a broken line, a flow, and the alert once more. *)
Definition log : string :=
  line_of (scan "2024-01-01T00:00:00") +:+ "{broken" +:+ String LF ""
  +:+ line_of flow +:+ line_of (scan "2024-01-01T00:00:00").

Definition fresh : Sys :=
  {| files := {| eve := Some log; last_processed := None; alerts_db := None |};
     writes := [] |}.

(** The alert the first call stores. *)
Definition first_alert : dict :=
  default [] (head (unique_of loads clock dice fresh)).

(** After a first call and the loss of the position it saved: the
    history is there, the cursor file is not. *)
Definition crashed : Sys :=
  {| files := {| eve := Some log;
                 last_processed := None;
                 alerts_db :=
                   alerts_db (files (store_new_alerts loads clock dice fresh).2) |};
     writes := [] |}.

Definition late_clock (k : nat) : string := "2024-03-05T08:30:0" +:+ pretty k.

Definition late_dice (k : nat) : Z := 7 * Z.of_nat k.

(** A history at the cap, of entries older than the log. *)
Definition old_entry : dict := [("_fingerprint", JStr "old")].

Definition full : Sys :=
  {| files := {| eve := Some (line_of (scan "2024-01-01T00:00:07"));
                 last_processed := None;
                 alerts_db := Some (replicate MAX_ALERTS old_entry) |};
     writes := [] |}.

(** A record, and the same fields in another order with one more. *)
Definition record : dict :=
  match scan "2024-01-01T00:00:00" with JObj m => m | _ => [] end.

Definition shuffled : dict := ("flow_id", JInt 99) :: reverse record.

(** Capture files around a cutoff of 400 seconds: the clock reads
    1000 and the age limit is 10 minutes. *)
Definition timer (k : nat) : Q := 1000%Q.

Definition captures : gmap string csv_file :=
  list_to_map [ ("old.csv", mkCsv 399%Q "");
                ("edge.csv", mkCsv 400%Q "a,b");
                ("new.csv", mkCsv 900%Q "a,b") ].

Definition shelf : Storage :=
  {| csv_dir := Some captures;
     saved_dir := Some (list_to_map [ ("gone.csv", mkCsv 100%Q "a,b");
                                      ("new.csv", mkCsv 900%Q "a,b") ]) |}.

Definition no_blacklist : Blacklist :=
  {| blacklisted_ips := ∅; blacklist_txt := ""; actions := [] |}.

(** After the first call, the event log one alert longer. *)
Definition grown : Sys :=
  let s := (store_new_alerts loads clock dice fresh).2 in
  {| files := {| eve := Some (log +:+ line_of (scan "2024-01-01T00:00:07"));
                 last_processed := last_processed (files s);
                 alerts_db := alerts_db (files s) |};
     writes := [] |}.

End Sample.

(** * The rest of the web API and of the blacklist *)

(** ** Reading and clearing the history ([read_eve_alerts],
    [api_alerts], [api_clear_alerts]) *)

(** [l[start:]]: a negative [start] counts from the end, and either
    way it is kept within the list. *)
Definition slice_from {A} (start : Z) (l : list A) : list A :=
  let n := Z.of_nat (length l) in
  drop (Z.to_nat (if start <? 0 then Z.max (n + start) 0 else Z.min start n)) l.

Record alerts_reply := mkAlertsReply {
  alerts : list dict;
  total_in_history : nat;
  returned : nat
}.

Section Queries.

Variable json_loads : string -> option json.
Variable now : nat -> string.
Variable rnd : nat -> Z.

(** [history[-limit:] if history else []], after the ingestion. *)
Definition read_eve_alerts (limit : Z) : IO (list dict) :=
  store_new_alerts json_loads now rnd;;
  do history <- load_alert_history;
  ret (match history with
       | [] => []
       | _ => slice_from (- limit) history
       end).

Definition api_alerts (limit : Z) : IO alerts_reply :=
  do found <- read_eve_alerts limit;
  do history <- load_alert_history;
  ret {| alerts := found;
         total_in_history := length history;
         returned := length found |}.

End Queries.

(** Both files are unlinked when they are there; an unlink is not a
    write and is not recorded as one. *)
Definition api_clear_alerts : IO string :=
  fun s =>
    ("Alert history cleared successfully",
     {| files := {| eve := eve (files s);
                    last_processed := None;
                    alerts_db := None |};
        writes := writes s |}).

(** ** Reading capture files ([read_csv_head], [latest_nonempty_rows],
    [api_latest], [api_file], [api_unsave_csv]) *)

Section Rows.

(** A row as [csv.DictReader] yields it. *)
Variable row : Type.

(** [csv.DictReader] over the bytes of a file: [None] when there is no
    header to take the field names from or reading it raises;
    otherwise the rows in order, as the reader yields them one at a
    time, a [None] among them being a row at which it raises. *)
Variable csv_reader : string -> option (list (option row)).

(** The loop over [enumerate(reader)]: row [i] is fetched, then the
    loop stops if [i >= limit]. [None] when a fetch raises. *)
Fixpoint take_rows (limit : Z) (i : Z) (rows : list (option row))
  : option (list row) :=
  match rows with
  | [] => Some []
  | None :: _ => None
  | Some r :: rest =>
      if limit <=? i then Some []
      else option_map (cons r) (take_rows limit (i + 1) rest)
  end.

(** [None] is [FileNotFoundError]; every other failure gives no
    rows. *)
Definition read_csv_head (p : option csv_file) (limit : Z)
  : option (list row) :=
  match p with
  | None => None
  | Some f =>
      Some match csv_reader (content f) with
           | None => []
           | Some rows => default [] (take_rows limit 0 rows)
           end
  end.

(** The loop over the candidates, newest first: a file that is gone,
    is empty or gives no rows is passed over. *)
Fixpoint first_nonempty (dir : gmap string csv_file) (limit : Z)
    (candidates : list file_info) : option string * list row :=
  match candidates with
  | [] => (None, [])
  | fi :: rest =>
      match dir !! name fi with
      | None => first_nonempty dir limit rest
      | Some f =>
          if (String.length (content f) =? 0)%nat
          then first_nonempty dir limit rest
          else
            match read_csv_head (Some f) limit with
            | Some (r :: rows) => (Some (name fi), r :: rows)
            | _ => first_nonempty dir limit rest
            end
      end
  end.

(** A candidate the loop stops at. *)
Definition good_candidate (dir : gmap string csv_file) (limit : Z)
    (fi : file_info) (rows : list row) : Prop :=
  exists f : csv_file,
    dir !! name fi = Some f /\ content f <> ""
    /\ read_csv_head (Some f) limit = Some rows /\ rows <> [].

Definition latest_nonempty_rows (clock : nat -> Q) (limit : Z)
    (skip_newest : bool) (st : Storage) : option string * list row :=
  match list_csv_files clock false 10 st with
  | [] => (None, [])
  | newest :: older =>
      let candidates :=
        if skip_newest
        then match older with [] => newest :: older | _ => older end
        else newest :: older in
      first_nonempty (default ∅ (csv_dir st)) limit candidates
  end.

Definition api_latest (clock : nat -> Q) (limit : Z) (st : Storage)
  : option string * list row :=
  latest_nonempty_rows clock limit false st.

Inductive file_response :=
| FileReply (file : string) (rows : list row) (is_saved : bool)
| FileError (status_code : Z) (detail : string).

Definition lookup_in (dir : option (gmap string csv_file)) (file : string)
  : option csv_file :=
  match dir with
  | Some d => d !! file
  | None => None
  end.

(** The capture directory is looked at first, the saved one only when
    the name is not there. *)
Definition api_file (file : string) (limit : Z) (st : Storage) : file_response :=
  match lookup_in (csv_dir st) file with
  | Some f => FileReply file (default [] (read_csv_head (Some f) limit)) false
  | None =>
      match lookup_in (saved_dir st) file with
      | Some f => FileReply file (default [] (read_csv_head (Some f) limit)) true
      | None => FileError 404 "File not found"
      end
  end.

End Rows.

Definition api_unsave_csv (file : string) (st : Storage) : response * Storage :=
  match saved_dir st with
  | Some sdir =>
      if bool_decide (is_Some (sdir !! file)) then
        (Reply "File removed from saved" file false,
         {| csv_dir := csv_dir st; saved_dir := Some (delete file sdir) |})
      else (HTTPException 404 "Saved file not found", st)
  | None => (HTTPException 404 "Saved file not found", st)
  end.

(** ** Verdicts ([process_and_predict]) *)

Definition MALICIOUS_LABELS : list (Z * string) :=
  [(1, "Brute Force"); (2, "DdoS"); (3, "Port Scan")].

Definition FEATURE_COLUMNS : list string :=
  ["src_port"; "dst_port"; "flow_byts_s"; "flow_pkts_s"; "fwd_pkts_s";
   "bwd_pkts_s"; "bwd_pkt_len_min"; "fwd_seg_size_min"; "bwd_iat_max";
   "bwd_iat_min"; "bwd_iat_mean"; "bwd_iat_std"; "init_bwd_win_byts"].

Definition FALLBACK_IP : string := "10.81.50.100".

(** [MALICIOUS_LABELS[prediction]], when the key is there. *)
Definition label_of (prediction : Z) : option string :=
  snd <$> find (fun e => bool_decide (e.1 = prediction)) MALICIOUS_LABELS.

Definition print (text : string) (st : Blacklist) : Blacklist :=
  {| blacklisted_ips := blacklisted_ips st;
     blacklist_txt := blacklist_txt st;
     actions := actions st ++ [Print text] |}.

(** The two signs of the messages, in UTF-8. *)
Definition SIREN : string :=
  String "240"%char (String "159"%char (String "154"%char (String "168"%char ""))).

Definition CHECK_MARK : string :=
  String "226"%char (String "156"%char (String "133"%char "")).

(** The loop over [enumerate(predictions)]. [reload idx] is what goes
    wrong in the call of [add_ip_to_blacklist] at row [idx], if
    anything does. *)
Fixpoint forward_verdicts (reload : nat -> option fault)
    (source_ips : list string) (idx : nat) (predictions : list Z)
    (st : Blacklist) : Blacklist :=
  match predictions with
  | [] => st
  | prediction :: rest =>
      let src_ip := default FALLBACK_IP (source_ips !! idx) in
      let src_ip := if decide (src_ip = "0.0.0.0") then FALLBACK_IP else src_ip in
      let st' :=
        match label_of prediction with
        | Some attack_type =>
            add_ip_to_blacklist (reload idx) src_ip
              (print ("[ALERT] " +:+ SIREN +:+ " Detected " +:+ attack_type
                      +:+ " from IP: " +:+ src_ip) st)
        | None =>
            print ("[INFO] " +:+ CHECK_MARK +:+ " Benign traffic from IP: "
                   +:+ src_ip) st
        end in
      forward_verdicts reload source_ips (S idx) rest st'
  end.

(** What [pandas] makes of a capture file: its columns, the column of
    source addresses when there is one, the number of its rows, and
    the table of features after [astype], or the error [astype]
    raises. *)
Record dataframe (X : Type) := mkFrame {
  columns : list string;
  src_ip_column : option (list string);
  n_rows : nat;
  astype : string + X
}.
Arguments columns {X} _.
Arguments src_ip_column {X} _.
Arguments n_rows {X} _.
Arguments astype {X} _.

Section Predict.

(** The table of features handed to the model. *)
Variable X : Type.

(** [pd.read_csv]: the error it raises, or the frame. *)
Variable read_csv : string -> string + dataframe X.

(** [model.predict]. *)
Variable predict : X -> list Z.

Definition missing_columns (df : dataframe X) : list string :=
  filter (fun c => c ∉ columns df) FEATURE_COLUMNS.

Definition warn_missing (cols : list string) (st : Blacklist) : Blacklist :=
  fold_left (fun s c =>
               print ("[WARNING] Missing column: " +:+ c
                      +:+ ". Filling with default value 0.") s)
            cols st.

Definition failed (e : string) (st : Blacklist) : Blacklist :=
  print ("[ERROR] Processing or prediction failed: " +:+ e) st.

(** The part after the capture file is read, if one is given. *)
Definition predict_and_forward (reload : nat -> option fault)
    (input_data : option X) (source_ips : option (list string))
    (st : Blacklist) : Blacklist :=
  match input_data, source_ips with
  | Some data, Some ips => forward_verdicts reload ips 0 (predict data) st
  | _, _ => print "[ERROR] No input data or source IPs provided." st
  end.

(** A file name that is [None] or empty counts as no file. *)
Definition process_and_predict (reload : nat -> option fault)
    (csv_file : option string) (input_data : option X)
    (source_ips : option (list string)) (st : Blacklist) : Blacklist :=
  match csv_file with
  | Some (String c path) =>
      match read_csv (String c path) with
      | inl e => failed e st
      | inr df =>
          let ips := default (replicate (n_rows df) FALLBACK_IP)
                             (src_ip_column df) in
          let st1 := warn_missing (missing_columns df) st in
          match astype df with
          | inl e => failed e st1
          | inr data => predict_and_forward reload (Some data) (Some ips) st1
          end
      end
  | _ => predict_and_forward reload input_data source_ips st
  end.

End Predict.

(** [DummyModel.predict]: [-1] for each of the [len] rows. *)
Definition DummyModel_predict {X} (len : X -> nat) (data : X) : list Z :=
  replicate (len data) (-1).

(** Every address of the set has its line somewhere in the file. *)
Definition on_file (st : Blacklist) : Prop :=
  forall ip : string,
    ip ∈ blacklisted_ips st ->
    exists before after : string,
      blacklist_txt st = before +:+ (ip +:+ String LF "") +:+ after.

(** The number of appends and of reloads among the actions. *)
Definition appends (st : Blacklist) : nat :=
  length (filter is_append (actions st)).

Definition reloads (st : Blacklist) : nat :=
  length (filter is_run (actions st)).

(** From [st] to [st']: the set has only grown, the file has only
    been added to at its end, there is one append and one reload more
    for each address more in the set, and the addresses of the set
    are on file if they were. *)
Definition extends (st st' : Blacklist) : Prop :=
  blacklisted_ips st ⊆ blacklisted_ips st'
  /\ (exists more : string, blacklist_txt st' = blacklist_txt st +:+ more)
  /\ (appends st' + size (blacklisted_ips st)
      = appends st + size (blacklisted_ips st'))%nat
  /\ (reloads st' + size (blacklisted_ips st)
      = reloads st + size (blacklisted_ips st'))%nat
  /\ (on_file st -> on_file st').

(** From [st] to [st']: the same set, the same file, no append and no
    reload. *)
Definition untouched (st st' : Blacklist) : Prop :=
  blacklisted_ips st' = blacklisted_ips st
  /\ blacklist_txt st' = blacklist_txt st
  /\ appends st' = appends st
  /\ reloads st' = reloads st.

(** ** More sample data *)

Module Fixture.

(** A reader for the sample files: the first line is the header and
    each further line a row. *)
Definition reader (bytes : string) : option (list (option string)) :=
  match readlines bytes with
  | [] => None
  | _ :: rows => Some (Some <$> rows)
  end.

Definition two_rows : string :=
  "a,b" +:+ String LF "" +:+ "1,2" +:+ String LF "" +:+ "3,4" +:+ String LF "".

Definition header_only : string := "a,b" +:+ String LF "".

(** Four recent captures: the newest has a header and no row, the
    next two have two rows each, the oldest is empty; and one saved
    file. *)
Definition recent : gmap string csv_file :=
  list_to_map [ ("c.csv", mkCsv 950%Q header_only);
                ("b.csv", mkCsv 900%Q two_rows);
                ("d.csv", mkCsv 850%Q two_rows);
                ("a.csv", mkCsv 800%Q "") ].

Definition kept : gmap string csv_file :=
  list_to_map [ ("k.csv", mkCsv 100%Q two_rows) ].

Definition desk : Storage := {| csv_dir := Some recent; saved_dir := Some kept |}.

(** The sample log read to its end, then cut down to nothing. *)
Definition cut : Sys :=
  {| files := {| eve := Some "";
                 last_processed := Some 455%nat;
                 alerts_db := Some [Sample.first_alert] |};
     writes := [] |}.

(** A set with one address, on file. *)
Definition listed : Blacklist :=
  {| blacklisted_ips := {["10.0.0.9"]};
     blacklist_txt := "10.0.0.9" +:+ String LF "";
     actions := [] |}.

(** A frame of two rows with the column of addresses and no other,
    its table of features being its number of rows. *)
Definition frame : dataframe nat :=
  {| columns := ["src_ip"];
     src_ip_column := Some ["0.0.0.0"; "10.0.0.5"];
     n_rows := 2;
     astype := inr 2%nat |}.

Definition pandas (path : string) : string + dataframe nat :=
  if decide (path = "capture.csv") then inr frame else inl "No such file".

(** A model that takes every row for a port scan. *)
Definition alarmist (rows : nat) : list Z := replicate rows 3.

Definition quiet_reload (idx : nat) : option fault := None.

(** A blacklist file that cannot be written. *)
Definition read_only (idx : nat) : option fault :=
  Some (AppendFails "[Errno 13] Permission denied").

End Fixture.

(** * Properties *)

(** ** The digest on the test vectors of hashlib *)

Example md5_empty : MD5.hexdigest "" = "d41d8cd98f00b204e9800998ecf8427e".
Proof. vm_compute. reflexivity. Qed.

Example md5_abc : MD5.hexdigest "abc" = "900150983cd24fb0d6963f7d28e17f72".
Proof. vm_compute. reflexivity. Qed.

Example md5_two_blocks :
  MD5.hexdigest
    "aaaaaaaaaaaaaaaaaaaaaaaaaaaaaaaaaaaaaaaaaaaaaaaaaaaaaaaaaaaaaaaaaaaaaaaaaaaaaaaaaaaaaaaaaaaaaaaaaaaa"
  = "36a92cc94a9e0fa21f625f8bfb007adf".
Proof. vm_compute. reflexivity. Qed.

(** ** The duplicate filter *)

Lemma elem_of_existing_fingerprints (history : list dict) (fp : string) :
  fp ∈ existing_fingerprints history
  <-> exists r : dict, r ∈ history /\ fingerprint_of r = Some fp.
Proof.
  induction history as [|a rest IH]; simpl.
  - split; [set_solver|]. intros (r & Hr & _). by apply elem_of_nil in Hr.
  - destruct (fingerprint_of a) as [fa|] eqn:Ha.
    + rewrite elem_of_union, elem_of_singleton, IH. split.
      * intros [-> | (r & Hr & Hfp)].
        -- exists a. split; [left | done].
        -- exists r. split; [by right | done].
      * intros (r & Hr & Hfp). apply elem_of_cons in Hr as [-> | Hr].
        -- left. congruence.
        -- right. eauto.
    + rewrite IH. split.
      * intros (r & Hr & Hfp). exists r. split; [by right | done].
      * intros (r & Hr & Hfp). apply elem_of_cons in Hr as [-> | Hr].
        -- congruence.
        -- eauto.
Qed.

Lemma existing_fingerprints_app (h1 h2 : list dict) :
  existing_fingerprints (h1 ++ h2)
  = existing_fingerprints h1 ∪ existing_fingerprints h2.
Proof.
  induction h1 as [|a rest IH]; simpl.
  - set_solver.
  - destruct (fingerprint_of a); rewrite IH; set_solver.
Qed.

Lemma omap_fingerprint_of (l : list dict) :
  Forall (fun b => fingerprint_of b = Some (batch_fingerprint b)) l ->
  omap fingerprint_of l = batch_fingerprint <$> l.
Proof.
  induction 1 as [|b l Hb _ IH]; [done|].
  rewrite fmap_cons. cbn [omap list_omap]. by rewrite Hb, IH.
Qed.

(** What the filter keeps is a sublist of the batch, fresh against the
    set it started from. *)
Lemma filter_unique_sublist (existing : gset string) (batch : list dict) :
  filter_unique existing batch `sublist_of` batch.
Proof.
  revert existing. induction batch as [|a rest IH]; intros existing; simpl.
  - constructor.
  - destruct (decide _); [apply sublist_cons | apply sublist_skip]; apply IH.
Qed.

Lemma filter_unique_elem_of (existing : gset string) (batch : list dict) (a : dict) :
  a ∈ filter_unique existing batch -> a ∈ batch.
Proof.
  revert existing. induction batch as [|b rest IH]; intros existing; simpl.
  - done.
  - destruct (decide _).
    + intros H. right. by apply (IH existing).
    + intros H. apply elem_of_cons in H as [-> | H]; [left | right; by apply (IH _ H)].
Qed.

Lemma filter_unique_fresh (existing : gset string) (batch : list dict) (a : dict) :
  a ∈ filter_unique existing batch -> batch_fingerprint a ∉ existing.
Proof.
  revert existing. induction batch as [|b rest IH]; intros existing; simpl.
  - intros H. by apply elem_of_nil in H.
  - destruct (decide _) as [Hin|Hout].
    + apply IH.
    + intros H. apply elem_of_cons in H as [-> | H]; [done|].
      apply IH in H. set_solver.
Qed.

Lemma filter_unique_NoDup (existing : gset string) (batch : list dict) :
  NoDup (batch_fingerprint <$> filter_unique existing batch).
Proof.
  revert existing. induction batch as [|b rest IH]; intros existing; simpl.
  - constructor.
  - destruct (decide _) as [Hin|Hout]; [apply IH|].
    rewrite fmap_cons. constructor; [|apply IH].
    intros Hb. apply list_elem_of_fmap in Hb as (c & Hc & Hin).
    apply filter_unique_fresh in Hin. set_solver.
Qed.

(** A batch with pairwise distinct fingerprints, none in the set, is
    kept whole. *)
Lemma filter_unique_all (existing : gset string) (batch : list dict) :
  NoDup (batch_fingerprint <$> batch) ->
  Forall (fun a => batch_fingerprint a ∉ existing) batch ->
  filter_unique existing batch = batch.
Proof.
  revert existing. induction batch as [|b rest IH]; intros existing Hnd Hall; simpl.
  - done.
  - rewrite fmap_cons in Hnd. apply NoDup_cons in Hnd as [Hb Hnd].
    apply Forall_cons in Hall as [Hfb Hall].
    destruct (decide _) as [Hin|Hout]; [done|].
    f_equal. apply IH; [done|].
    apply Forall_forall. intros c Hc.
    rewrite Forall_forall in Hall. specialize (Hall c Hc).
    assert (batch_fingerprint c <> batch_fingerprint b).
    { intros Heq. apply Hb. rewrite <- Heq. by apply list_elem_of_fmap_2. }
    set_solver.
Qed.

(** A batch whose fingerprints are all in the set is dropped whole. *)
Lemma filter_unique_none (existing : gset string) (batch : list dict) :
  Forall (fun a => batch_fingerprint a ∈ existing) batch ->
  filter_unique existing batch = [].
Proof.
  induction 1 as [|b rest Hb _ IH]; simpl; [done|].
  destruct (decide _); [done | contradiction].
Qed.

(** Every fingerprint of the batch that is not in the set is the
    fingerprint of an alert that is kept. *)
Lemma filter_unique_covers (existing : gset string) (batch : list dict) (a : dict) :
  a ∈ batch -> batch_fingerprint a ∉ existing ->
  exists b : dict,
    b ∈ filter_unique existing batch /\ batch_fingerprint b = batch_fingerprint a.
Proof.
  revert existing. induction batch as [|c rest IH]; intros existing Ha Hout; simpl.
  - by apply elem_of_nil in Ha.
  - apply elem_of_cons in Ha as [-> | Ha].
    + destruct (decide _); [done|]. exists c. split; [left | done].
    + destruct (decide (batch_fingerprint c ∈ existing)) as [Hc|Hc].
      * by apply IH.
      * destruct (decide (batch_fingerprint a = batch_fingerprint c)) as [Heq|Hne].
        -- exists c. split; [left | done].
        -- destruct (IH ({[batch_fingerprint c]} ∪ existing) Ha) as (b & Hb & Hfp).
           { set_solver. }
           exists b. split; [by right | done].
Qed.

(** A dropped alert has the fingerprint of a member of the set or of
    an alert that is kept. *)
Lemma rejected_alerts_cause (existing : gset string) (batch : list dict) (a : dict) :
  a ∈ rejected_alerts existing batch ->
  batch_fingerprint a ∈ existing
  \/ exists b : dict,
      b ∈ filter_unique existing batch /\ batch_fingerprint b = batch_fingerprint a.
Proof.
  revert existing. induction batch as [|c rest IH]; intros existing; simpl.
  - intros H. by apply elem_of_nil in H.
  - destruct (decide _) as [Hin|Hout].
    + intros H. apply elem_of_cons in H as [-> | H]; [by left|]. by apply IH.
    + intros H. apply IH in H as [H | (b & Hb & Hfp)].
      * apply elem_of_union in H as [H | H]; [|by left].
        apply elem_of_singleton in H. right. exists c. split; [left | done].
      * right. exists b. split; [by right | done].
Qed.

(** ** One call of [store_new_alerts] *)

Lemma length_keep_last {A} (n : nat) (l : list A) :
  (n <= length l)%nat -> length (keep_last n l) = n.
Proof. intros H. unfold keep_last. rewrite length_skipn. lia. Qed.

Lemma keep_last_suffix {A} (n : nat) (l : list A) :
  firstn (length l - n) l ++ keep_last n l = l.
Proof. apply firstn_skipn. Qed.

Lemma length_trim (history : list dict) :
  (length (trim history) <= MAX_ALERTS)%nat.
Proof.
  unfold trim. destruct (Nat.ltb_spec MAX_ALERTS (length history)).
  - rewrite length_keep_last; lia.
  - lia.
Qed.

Section Calls.

Variable json_loads : string -> option json.
Variable now : nat -> string.
Variable rnd : nat -> Z.

Local Abbreviation store := (store_new_alerts json_loads now rnd).
Local Abbreviation batch := (batch_of json_loads now rnd).
Local Abbreviation unique := (unique_of json_loads now rnd).
Local Abbreviation after := (after_store json_loads now rnd).

(** With the event log present, a call returns the number of alerts
    the filter keeps and leaves the state [after_store]. *)
Lemma store_new_alerts_run (s : Sys) (text : string) :
  eve (files s) = Some text ->
  store s = (length (unique s), after s).
Proof.
  intros Heve.
  assert (Htext : eve_text s = text) by (unfold eve_text; by rewrite Heve).
  unfold store_new_alerts, after_store, unique_of, batch_of, lines_read,
    end_position, history_of, eve_text, last_pos_of, bind, ret,
    eve_exists, get_last_processed_position, read_eve,
    set_last_processed_position, load_alert_history, save_alert_history.
  cbn -[filter_unique read_new_alerts existing_fingerprints readlines
        drop_bytes Nat.ltb keep_last String.length trim].
  rewrite Heve.
  cbn -[filter_unique read_new_alerts existing_fingerprints readlines
        drop_bytes Nat.ltb keep_last String.length trim].
  rewrite ?Heve. simpl default.
  destruct (read_new_alerts json_loads now rnd 0 _) as [|a l] eqn:Hb.
  - done.
  - cbn [files eve last_processed alerts_db writes].
    destruct (filter_unique _ (a :: l)) as [|u us] eqn:Hu.
    + done.
    + cbn [files eve last_processed alerts_db writes]. by rewrite <- app_assoc.
Qed.

(** Without the event log a call does nothing. *)
Lemma store_new_alerts_no_log (s : Sys) :
  eve (files s) = None -> store s = (0%nat, s).
Proof.
  intros Heve. unfold store_new_alerts, bind, ret, eve_exists.
  by rewrite Heve.
Qed.

Lemma writes_of_run (s : Sys) (text : string) :
  eve (files s) = Some text ->
  writes_of json_loads now rnd s
  = WritePosition (end_position s)
    :: match unique s with
       | [] => []
       | _ => [WriteHistory (trim (history_of s ++ unique s))]
       end.
Proof.
  intros Heve. unfold writes_of.
  rewrite (store_new_alerts_run _ text) by done.
  simpl. unfold after_store.
  change (unique_of json_loads now rnd {| files := files s; writes := [] |})
    with (unique s).
  change (end_position {| files := files s; writes := [] |})
    with (end_position s).
  change (history_of {| files := files s; writes := [] |})
    with (history_of s).
  by destruct (unique s).
Qed.

End Calls.

(** ** Dictionaries *)

Lemma dict_get_set_eq (d : dict) (k : string) (v : json) :
  dict_get (dict_set d k v) k = Some v.
Proof.
  induction d as [|[k' v'] rest IH]; simpl.
  - by rewrite decide_True.
  - destruct (decide (k' = k)) as [->|Hne]; simpl.
    + by rewrite decide_True.
    + by rewrite decide_False.
Qed.

Lemma dict_get_set_ne (d : dict) (k k' : string) (v : json) :
  k <> k' -> dict_get (dict_set d k v) k' = dict_get d k'.
Proof.
  intros Hne. induction d as [|[k0 v0] rest IH]; simpl.
  - by rewrite decide_False.
  - destruct (decide (k0 = k)) as [->|Hk]; simpl.
    + by rewrite !decide_False.
    + destruct (decide (k0 = k')); [done | apply IH].
Qed.

Lemma dict_get_default_set_ne (d : dict) (k k' : string) (v dflt : json) :
  k <> k' -> dict_get_default (dict_set d k v) k' dflt = dict_get_default d k' dflt.
Proof. intros Hne. unfold dict_get_default. by rewrite dict_get_set_ne. Qed.

(** A key is found in a dictionary where it is found in a rearranged
    one, when no key is repeated. *)
Lemma dict_get_Some_elem (d : dict) (k : string) (v : json) :
  NoDup d.*1 -> (dict_get d k = Some v <-> (k, v) ∈ d).
Proof.
  induction d as [|[k' v'] rest IH]; simpl; intros Hnd.
  - split; [done | intros H; by apply elem_of_nil in H].
  - apply NoDup_cons in Hnd as [Hk' Hnd].
    destruct (decide (k' = k)) as [->|Hne].
    + split.
      * intros [= ->]. left.
      * intros H. apply elem_of_cons in H as [[= ->] | H]; [done|].
        exfalso. apply Hk'. by apply (list_elem_of_fmap_2 fst) in H.
    + rewrite IH by done. split.
      * by right.
      * intros H. apply elem_of_cons in H as [[= ? ?] | H]; [congruence | done].
Qed.

Lemma dict_get_Permutation (d d' : dict) (k : string) :
  NoDup d.*1 -> d ≡ₚ d' -> dict_get d k = dict_get d' k.
Proof.
  intros Hnd Hp.
  assert (Hnd' : NoDup d'.*1) by (by rewrite <- Hp).
  destruct (dict_get d k) as [v|] eqn:Hd.
  - apply dict_get_Some_elem in Hd; [|done].
    symmetry. apply dict_get_Some_elem; [done|]. by rewrite <- Hp.
  - destruct (dict_get d' k) as [v'|] eqn:Hd'; [|done].
    apply dict_get_Some_elem in Hd'; [|done].
    rewrite <- Hp in Hd'. apply dict_get_Some_elem in Hd'; [|done]. congruence.
Qed.

(** ** Fingerprints *)

(** The fingerprint of a record whose ["alert"] is an object: the
    digest of its seven fields, whatever the generator holds. *)
Lemma generate_alert_fingerprint_object (rnd : Z) (r alert : dict) :
  alert_descriptor r = Some alert ->
  generate_alert_fingerprint rnd r
  = MD5.hexdigest (Dumps.dumps (JObj (fingerprint_data r alert))).
Proof.
  unfold alert_descriptor, generate_alert_fingerprint.
  destruct (dict_get_default r "alert" (JObj [])); intros [= ->]; done.
Qed.

Lemma fingerprint_data_agree (r1 r2 a1 a2 : dict) :
  (forall k : string,
      k ∈ ["timestamp"; "src_ip"; "dest_ip"; "proto"] ->
      dict_get r1 k = dict_get r2 k) ->
  (forall k : string,
      k ∈ ["signature"; "signature_id"; "severity"] ->
      dict_get a1 k = dict_get a2 k) ->
  fingerprint_data r1 a1 = fingerprint_data r2 a2.
Proof.
  intros Hr Ha. unfold fingerprint_data, dict_get_default.
  rewrite (Hr "timestamp"), (Hr "src_ip"), (Hr "dest_ip"), (Hr "proto")
    by set_solver.
  rewrite (Ha "signature"), (Ha "signature_id"), (Ha "severity")
    by set_solver.
  done.
Qed.

Lemma same_canonical_fields_fingerprint (rnd1 rnd2 : Z) (r1 r2 : dict) :
  same_canonical_fields r1 r2 ->
  generate_alert_fingerprint rnd1 r1 = generate_alert_fingerprint rnd2 r2.
Proof.
  intros (Hr & a1 & a2 & H1 & H2 & Ha).
  rewrite (generate_alert_fingerprint_object rnd1 r1 a1) by done.
  rewrite (generate_alert_fingerprint_object rnd2 r2 a2) by done.
  by rewrite (fingerprint_data_agree r1 r2 a1 a2).
Qed.

Lemma alert_descriptor_agree (r1 r2 : dict) :
  dict_get r1 "alert" = dict_get r2 "alert" ->
  alert_descriptor r1 = alert_descriptor r2.
Proof. intros H. unfold alert_descriptor, dict_get_default. by rewrite H. Qed.

(** Records that differ in the order of their fields. *)
Lemma reordered_same_canonical_fields (r r' a : dict) :
  alert_descriptor r = Some a -> NoDup r.*1 -> r ≡ₚ r' ->
  same_canonical_fields r r'.
Proof.
  intros Ha Hnd Hp. split.
  - intros k _. by apply dict_get_Permutation.
  - exists a, a. split; [done|]. split; [|done].
    rewrite <- Ha. symmetry. apply alert_descriptor_agree.
    by apply dict_get_Permutation.
Qed.

(** Records that differ in a field the fingerprint does not read. *)
Lemma extra_field_same_canonical_fields (r a : dict) (k : string) (v : json) :
  alert_descriptor r = Some a ->
  k ∉ ["alert"; "timestamp"; "src_ip"; "dest_ip"; "proto"] ->
  same_canonical_fields r (dict_set r k v).
Proof.
  intros Ha Hk. split.
  - intros k' Hk'. symmetry. apply dict_get_set_ne. set_solver.
  - exists a, a. split; [done|]. split; [|done].
    rewrite <- Ha. apply alert_descriptor_agree, dict_get_set_ne. set_solver.
Qed.

(** C4. The fingerprint is a function of the seven canonical fields:
    two records whose ["alert"] is an object and which agree on
    timestamp, signature, signature id, severity, source address,
    destination address and protocol have the same fingerprint,
    whatever else they hold, in whatever order, and whatever the
    random generator would return. *)
Theorem fingerprint_stable (rnd1 rnd2 : Z) (r1 r2 : dict) :
  same_canonical_fields r1 r2 ->
  generate_alert_fingerprint rnd1 r1 = generate_alert_fingerprint rnd2 r2.
Proof. apply same_canonical_fields_fingerprint. Qed.

(** ** Lines and the alerts made of them *)

Section Lines.

Variable json_loads : string -> option json.

Lemma process_line_inv (now : nat -> string) (rnd : nat -> Z)
    (k : nat) (line : string) (a : dict) :
  process_line json_loads now rnd k line = Some a ->
  exists obj : dict,
    json_loads (strip line) = Some (JObj obj)
    /\ truthy (dict_get_default obj "alert" JNull) = true
    /\ a = dict_set (dict_set obj "stored_at" (JStr (now k))) "_fingerprint"
             (JStr (generate_alert_fingerprint (rnd k)
                      (dict_set obj "stored_at" (JStr (now k))))).
Proof.
  unfold process_line.
  destruct (json_loads (strip line)) as [[| | | | | |obj]|]; try done.
  destruct (truthy _) eqn:Ht; [|done].
  intros [= <-]. by exists obj.
Qed.

(** An alert of the batch carries its fingerprint as a string. *)
Lemma process_line_fingerprint_of (now : nat -> string) (rnd : nat -> Z)
    (k : nat) (line : string) (a : dict) :
  process_line json_loads now rnd k line = Some a ->
  fingerprint_of a = Some (batch_fingerprint a).
Proof.
  intros (obj & _ & _ & ->)%process_line_inv.
  unfold batch_fingerprint, fingerprint_of. by rewrite dict_get_set_eq.
Qed.

(** The alert made of a well-formed line has the digest of the line's
    canonical fields for fingerprint, at any time and any draw. *)
Lemma process_line_well_formed (now : nat -> string) (rnd : nat -> Z)
    (k : nat) (line : string) (a obj alert : dict) :
  json_loads (strip line) = Some (JObj obj) ->
  dict_get obj "alert" = Some (JObj alert) ->
  process_line json_loads now rnd k line = Some a ->
  batch_fingerprint a
  = MD5.hexdigest (Dumps.dumps (JObj (fingerprint_data obj alert))).
Proof.
  intros Hobj Halert (obj' & Hobj' & _ & ->)%process_line_inv.
  assert (obj' = obj) as -> by congruence.
  unfold batch_fingerprint, fingerprint_of. rewrite dict_get_set_eq.
  cbn [from_option id].
  rewrite (generate_alert_fingerprint_object _ _ alert).
  - rewrite (fingerprint_data_agree _ obj alert alert); [done| |done].
    intros k' Hk'. apply dict_get_set_ne. set_solver.
  - unfold alert_descriptor, dict_get_default.
    rewrite dict_get_set_ne by done. by rewrite Halert.
Qed.

Lemma reprocess_same_fingerprint (now now' : nat -> string)
    (rnd rnd' : nat -> Z) (k k' : nat) (line : string) (a a' : dict) :
  well_formed_line json_loads line ->
  process_line json_loads now rnd k line = Some a ->
  process_line json_loads now' rnd' k' line = Some a' ->
  batch_fingerprint a' = batch_fingerprint a.
Proof.
  intros (obj & alert & Hobj & Halert) Ha Ha'.
  rewrite (process_line_well_formed now rnd k line a obj alert) by done.
  by rewrite (process_line_well_formed now' rnd' k' line a' obj alert).
Qed.

Lemma elem_of_read_new_alerts (now : nat -> string) (rnd : nat -> Z)
    (k0 : nat) (lines : list string) (a : dict) :
  a ∈ read_new_alerts json_loads now rnd k0 lines
  <-> exists (i : nat) (line : string),
        lines !! i = Some line
        /\ process_line json_loads now rnd (k0 + i) line = Some a.
Proof.
  revert k0. induction lines as [|l rest IH]; intros k0; simpl.
  - split; [intros H; by apply elem_of_nil in H | by intros (i & line & ? & _)].
  - assert (Hrest : a ∈ read_new_alerts json_loads now rnd (S k0) rest
      <-> exists (i : nat) (line : string),
            (l :: rest) !! S i = Some line
            /\ process_line json_loads now rnd (k0 + S i) line = Some a).
    { rewrite IH. split; intros (i & line & Hi & Hp); exists i, line;
        (split; [done|]); by replace (k0 + S i)%nat with (S k0 + i)%nat in * by lia. }
    destruct (process_line json_loads now rnd k0 l) as [b|] eqn:Hl.
    + rewrite elem_of_cons, Hrest. split.
      * intros [-> | (i & line & Hi & Hp)].
        -- exists 0%nat, l. split; [done|]. by rewrite Nat.add_0_r.
        -- by exists (S i), line.
      * intros ([|i] & line & Hi & Hp).
        -- left. simpl in Hi. injection Hi as <-.
           rewrite Nat.add_0_r in Hp. congruence.
        -- right. by exists i, line.
    + rewrite Hrest. split.
      * intros (i & line & Hi & Hp). by exists (S i), line.
      * intros ([|i] & line & Hi & Hp).
        -- simpl in Hi. injection Hi as <-.
           rewrite Nat.add_0_r in Hp. congruence.
        -- by exists i, line.
Qed.

End Lines.

(** ** Text *)


(** ** The claims on ingestion *)

Section Ingested.

Variable json_loads : string -> option json.
Variable now : nat -> string.
Variable rnd : nat -> Z.

Local Abbreviation store := (store_new_alerts json_loads now rnd).
Local Abbreviation batch := (batch_of json_loads now rnd).
Local Abbreviation unique := (unique_of json_loads now rnd).
Local Abbreviation rejected := (rejected_of json_loads now rnd).

Lemma batch_fingerprint_of (s : Sys) (a : dict) :
  a ∈ batch s -> fingerprint_of a = Some (batch_fingerprint a).
Proof.
  intros (i & line & _ & Hp)%elem_of_read_new_alerts.
  by apply process_line_fingerprint_of in Hp.
Qed.

Lemma unique_in_batch (s : Sys) (a : dict) : a ∈ unique s -> a ∈ batch s.
Proof.
  apply filter_unique_elem_of.
Qed.


Lemma nothing_new_run (s : Sys) (text : string) :
  eve (files s) = Some text ->
  (forall (i : nat) (line : string),
      lines_read s !! i = Some line ->
      process_line json_loads now rnd i line = None
      \/ exists a : dict,
          process_line json_loads now rnd i line = Some a
          /\ batch_fingerprint a ∈ existing_fingerprints (history_of s)) ->
  store s
  = (0%nat,
     {| files := {| eve := eve (files s);
                    last_processed := Some (end_position s);
                    alerts_db := alerts_db (files s) |};
        writes := writes s ++ [WritePosition (end_position s)] |}).
Proof.
  intros Heve Hlines. rewrite (store_new_alerts_run _ _ _ s text) by done.
  assert (Hu : unique s = []).
  { apply filter_unique_none, Forall_forall. intros a Ha.
    apply elem_of_read_new_alerts in Ha as (i & line & Hi & Hp).
    destruct (Hlines i line Hi) as [Hnone | (a' & Ha' & Hin)]; simpl in *.
    - congruence.
    - congruence. }
  unfold after_store. by rewrite Hu.
Qed.

(** The fingerprints of the history a call leaves are pairwise
    distinct when those of the history it found are. *)
Lemma history_fingerprints_NoDup (s : Sys) (text : string) :
  eve (files s) = Some text ->
  NoDup (omap fingerprint_of (history_of s)) ->
  NoDup (omap fingerprint_of (history_of (store s).2)).
Proof.
  intros Heve Hnd. rewrite (store_new_alerts_run _ _ _ s text) by done.
  cbn [snd]. unfold after_store.
  destruct (unique s) as [|u us] eqn:Hu; [done|].
  unfold history_of at 1. cbn [files alerts_db from_option id].
  rewrite <- Hu.
  assert (Hall : NoDup (omap fingerprint_of (history_of s ++ unique s))).
  { rewrite omap_app. apply NoDup_app. split; [done|]. split.
    - intros fp Hfp Hfp'.
      apply list_elem_of_omap in Hfp' as (b & Hb & Hfb).
      rewrite (batch_fingerprint_of s b) in Hfb by (by apply unique_in_batch).
      injection Hfb as <-.
      apply filter_unique_fresh in Hb. apply Hb.
      apply elem_of_existing_fingerprints.
      by apply list_elem_of_omap in Hfp.
    - rewrite omap_fingerprint_of; [apply filter_unique_NoDup|].
      apply Forall_forall. intros b Hb.
      by apply (batch_fingerprint_of s), unique_in_batch. }
  unfold trim. destruct (_ <? _)%nat; [|done].
  unfold keep_last.
  rewrite <- (take_drop (length (history_of s ++ unique s) - MAX_ALERTS)
                (history_of s ++ unique s)) in Hall at 1.
  rewrite omap_app in Hall. by apply NoDup_app in Hall as (_ & _ & Hall).
Qed.


(** C3. When the alerts read have pairwise distinct fingerprints, none
    of them in the history, and history and alerts together are more
    than 10000, the call stores them all and leaves exactly the last
    10000 of the history followed by the alerts: what is left out is
    the oldest part. *)
Theorem retention_bound (s : Sys) (text : string) :
  eve (files s) = Some text ->
  batch s <> [] ->
  NoDup (batch_fingerprint <$> batch s) ->
  Forall (fun a => batch_fingerprint a ∉ existing_fingerprints (history_of s))
         (batch s) ->
  (MAX_ALERTS < length (history_of s) + length (batch s))%nat ->
  (store s).1 = length (batch s)
  /\ exists evicted kept : list dict,
      alerts_db (files (store s).2) = Some kept
      /\ history_of s ++ batch s = evicted ++ kept
      /\ length kept = Z.to_nat 10000.
Proof.
  intros Heve Hne Hnd Hfresh Hlen.
  rewrite (store_new_alerts_run _ _ _ s text) by done.
  assert (Hu : unique s = batch s) by (by apply filter_unique_all).
  rewrite Hu. split; [done|].
  exists (firstn (length (history_of s ++ batch s) - MAX_ALERTS)
                 (history_of s ++ batch s)),
         (keep_last MAX_ALERTS (history_of s ++ batch s)).
  split; [|split].
  - cbn [snd]. unfold after_store. rewrite Hu.
    destruct (batch s) eqn:Hb; [done|]. cbn [files alerts_db].
    unfold trim. rewrite <- Hb in *.
    destruct (Nat.ltb_spec MAX_ALERTS (length (history_of s ++ batch s)));
      [done|]. rewrite length_app in *. lia.
  - symmetry. apply keep_last_suffix.
  - change (Z.to_nat 10000) with MAX_ALERTS.
    apply length_keep_last. rewrite length_app. lia.
Qed.

End Ingested.

Section Ordering.

Variable json_loads : string -> option json.
Variable now : nat -> string.
Variable rnd : nat -> Z.

Local Abbreviation store := (store_new_alerts json_loads now rnd).
Local Abbreviation batch := (batch_of json_loads now rnd).
Local Abbreviation unique := (unique_of json_loads now rnd).
Local Abbreviation rejected := (rejected_of json_loads now rnd).

(** C1, as the code has it. With the event log present, the first
    write of the call is the new position; the history, when alerts
    are stored, is written after it and is the last write.  After the
    first write the cursor file holds the new position while the
    history file is as the call found it. *)
Theorem position_saved_before_history (s : Sys) (text : string) :
  eve (files s) = Some text ->
  writes_of json_loads now rnd s
  = WritePosition (end_position s)
    :: match unique s with
       | [] => []
       | _ => [WriteHistory (trim (history_of s ++ unique s))]
       end
  /\ head (states_through (files s) (writes_of json_loads now rnd s))
     = Some {| eve := eve (files s);
               last_processed := Some (end_position s);
               alerts_db := alerts_db (files s) |}.
Proof.
  intros Heve. rewrite (writes_of_run _ _ _ s text) by done. split; done.
Qed.

(** C8, as the code has it. The set the filter starts from holds
    exactly the fingerprints of the history read from disk; an alert
    is rejected only by the fingerprint of an entry of that history or
    of an alert kept earlier in the call, which the call appends; and
    a fingerprint that is in the batch and not in the history on disk,
    as that of an evicted entry, is stored by the call. *)
Theorem membership_follows_history (s : Sys) (text : string) :
  eve (files s) = Some text ->
  store s = (length (unique s), after_store json_loads now rnd s)
  /\ (forall fp : string,
        fp ∈ existing_fingerprints (history_of s)
        <-> exists r : dict, r ∈ history_of s /\ fingerprint_of r = Some fp)
  /\ (forall a : dict,
        a ∈ rejected s ->
        exists r : dict,
          r ∈ history_of s ++ unique s
          /\ fingerprint_of r = Some (batch_fingerprint a))
  /\ (forall a : dict,
        a ∈ batch s ->
        batch_fingerprint a ∉ existing_fingerprints (history_of s) ->
        exists b : dict,
          b ∈ unique s /\ batch_fingerprint b = batch_fingerprint a).
Proof.
  intros Heve. split; [by apply (store_new_alerts_run _ _ _ s text)|].
  split; [apply elem_of_existing_fingerprints|]. split.
  - intros a Ha. apply rejected_alerts_cause in Ha as [Hin | (b & Hb & Hfp)].
    + apply elem_of_existing_fingerprints in Hin as (r & Hr & Hfp).
      exists r. split; [|done]. apply elem_of_app. by left.
    + exists b. split; [apply elem_of_app; by right|].
      rewrite <- Hfp. eapply batch_fingerprint_of, unique_in_batch, Hb.
  - intros a Ha Hout. by apply filter_unique_covers.
Qed.

(** C2. A call made over lines that were already ingested, whatever
    the position it starts from, the time and the draws: an alert made
    of a well-formed line that an earlier call turned into an entry of
    the history has the fingerprint of that entry, and no alert with
    that fingerprint is among those the call stores; the call returns
    the number of alerts it stores; and when every alert read comes
    from such a line the call returns 0 and leaves the history file as
    it was.  In every case the fingerprints of the history the call
    leaves are pairwise distinct when those of the history it found
    are. *)
Theorem reingest_stores_no_duplicate (s : Sys) (text : string) :
  eve (files s) = Some text ->
  (forall (i : nat) (line : string) (a : dict),
      lines_read s !! i = Some line ->
      well_formed_line json_loads line ->
      stored_from json_loads (history_of s) line ->
      process_line json_loads now rnd i line = Some a ->
      batch_fingerprint a ∈ existing_fingerprints (history_of s)
      /\ forall b : dict,
          b ∈ unique s -> batch_fingerprint b <> batch_fingerprint a)
  /\ (store s).1 = length (unique s)
  /\ ((forall (i : nat) (line : string),
         lines_read s !! i = Some line ->
         is_Some (process_line json_loads now rnd i line) ->
         well_formed_line json_loads line
         /\ stored_from json_loads (history_of s) line) ->
      (store s).1 = 0%nat
      /\ alerts_db (files (store s).2) = alerts_db (files s))
  /\ (NoDup (omap fingerprint_of (history_of s)) ->
      NoDup (omap fingerprint_of (history_of (store s).2))).
Proof.
  intros Heve.
  assert (Hseen : forall (i : nat) (line : string) (a : dict),
    well_formed_line json_loads line ->
    stored_from json_loads (history_of s) line ->
    process_line json_loads now rnd i line = Some a ->
    batch_fingerprint a ∈ existing_fingerprints (history_of s)).
  { intros i line a Hwf (now0 & rnd0 & k0 & a0 & Ha0 & Hin) Ha.
    apply elem_of_existing_fingerprints. exists a0. split; [done|].
    rewrite (reprocess_same_fingerprint json_loads now0 now rnd0 rnd
               k0 i line a0 a) by done.
    by apply process_line_fingerprint_of in Ha0. }
  split; [|split; [|split]].
  - intros i line a Hi Hwf Hst Ha. split; [by apply (Hseen i line)|].
    intros b Hb Heq. apply filter_unique_fresh in Hb.
    rewrite Heq in Hb. apply Hb. by apply (Hseen i line).
  - by rewrite (store_new_alerts_run _ _ _ s text).
  - intros Hall.
    rewrite (nothing_new_run json_loads now rnd s text); [done|done|].
    intros i line Hi.
    destruct (process_line json_loads now rnd i line) as [a|] eqn:Ha; [|by left].
    right. exists a. split; [done|].
    destruct (Hall i line Hi) as [Hwf Hst]; [by rewrite Ha|].
    by apply (Hseen i line).
  - by apply (history_fingerprints_NoDup json_loads now rnd s text).
Qed.

End Ordering.

(** ** Capture files *)

Lemma Qltb_lt (x y : Q) : Qltb x y = true <-> (x < y)%Q.
Proof.
  unfold Qltb. rewrite negb_true_iff. split.
  - intros H. apply Qnot_le_lt. intros Hle.
    apply Qle_bool_iff in Hle. congruence.
  - intros H. destruct (Qle_bool y x) eqn:Hle; [|done].
    apply Qle_bool_iff in Hle. by apply Qlt_not_le in H.
Qed.

Lemma insert_sorted_perm {A} (le : A -> A -> bool) (x : A) (l : list A) :
  insert_sorted le x l ≡ₚ x :: l.
Proof.
  induction l as [|y rest IH]; simpl; [done|].
  destruct (le x y); [done|]. rewrite IH. apply Permutation_swap.
Qed.

Lemma sort_by_perm {A} (le : A -> A -> bool) (l : list A) :
  sort_by le l ≡ₚ l.
Proof.
  induction l as [|x rest IH]; simpl; [done|].
  rewrite insert_sorted_perm. by rewrite IH.
Qed.

Lemma elem_of_glob_csv_sorted (dir : gmap string csv_file) (e : string * csv_file) :
  e ∈ glob_csv_sorted dir <-> is_csv e.1 = true /\ dir !! e.1 = Some e.2.
Proof.
  unfold glob_csv_sorted. rewrite sort_by_perm, list_elem_of_filter.
  rewrite elem_of_map_to_list'. by rewrite Is_true_true.
Qed.

Lemma elem_of_imap_info (clock : nat -> Q) (is_saved : bool) (base : nat)
    (l : list (string * csv_file)) (fi : file_info) :
  fi ∈ imap (fun i => info_of clock is_saved (base + i)) l
  <-> exists (i : nat) (e : string * csv_file),
        l !! i = Some e /\ fi = info_of clock is_saved (base + i) e.
Proof.
  rewrite list_elem_of_lookup. split.
  - intros (i & Hi). rewrite list_lookup_imap in Hi.
    destruct (l !! i) as [e|] eqn:He; [|done].
    injection Hi as <-. by exists i, e.
  - intros (i & e & He & ->). exists i. rewrite list_lookup_imap. by rewrite He.
Qed.

(** The entries of the listing that are not saved files: the files of
    the directory that match and are not older than the cutoff. *)
Lemma list_csv_files_regular (clock : nat -> Q) (include_saved : bool)
    (max_age_minutes : Z) (st : Storage) (dir : gmap string csv_file)
    (fi : file_info) :
  csv_dir st = Some dir ->
  (fi ∈ list_csv_files clock include_saved max_age_minutes st /\ saved fi = false)
  <-> exists (i : nat) (e : string * csv_file),
        glob_csv_sorted dir !! i = Some e
        /\ fi = info_of clock false (S i) e
        /\ Qle_bool (cutoff_time (clock O) max_age_minutes) (mtime e.2) = true.
Proof.
  intros Hdir. unfold list_csv_files. rewrite Hdir.
  rewrite sort_by_perm.
  set (cutoff := cutoff_time (clock O) max_age_minutes).
  set (regular := imap (fun i => info_of clock false (S i)) (glob_csv_sorted dir)).
  assert (Hrecent : forall fi' : file_info,
    fi' ∈ filter (fun x => Qle_bool cutoff (info_mtime x)) regular
    <-> exists (i : nat) (e : string * csv_file),
          glob_csv_sorted dir !! i = Some e
          /\ fi' = info_of clock false (S i) e
          /\ Qle_bool cutoff (mtime e.2) = true).
  { intros fi'. rewrite list_elem_of_filter. unfold regular.
    rewrite (elem_of_imap_info clock false 1). rewrite Is_true_true. split.
    - intros (Hq & i & e & He & ->). by exists i, e.
    - intros (i & e & He & -> & Hq). split; [done|]. by exists i, e. }
  assert (Hsaved : forall (sdir : gmap string csv_file) (fi' : file_info),
    fi' ∈ imap (fun i => info_of clock true (S (length regular + i)))
               (glob_csv_sorted sdir) -> saved fi' = true).
  { intros sdir fi' Hin.
    apply (elem_of_imap_info clock true (S (length regular))) in Hin
      as (i & e & _ & ->). done. }
  destruct include_saved, (saved_dir st) as [sdir|];
    rewrite ?elem_of_app, <- ?Hrecent.
  2-4: split; [by intros [? _] | intros H; split; [done|]];
       apply Hrecent in H as (i & e & _ & -> & _); done.
  split.
  - intros [[H | H] Hs]; [done|]. apply Hsaved in H. congruence.
  - intros H. split; [by left|]. apply Hrecent in H as (i & e & _ & -> & _). done.
Qed.

Lemma cleanup_old_csvs_lookup (time_now : Q) (max_age_minutes : Z)
    (st : Storage) (dir : gmap string csv_file) (file : string) :
  csv_dir st = Some dir ->
  exists dir' : gmap string csv_file,
    csv_dir (cleanup_old_csvs time_now max_age_minutes st).2 = Some dir'
    /\ saved_dir (cleanup_old_csvs time_now max_age_minutes st).2 = saved_dir st
    /\ dir' !! file
       = match dir !! file with
         | Some f =>
             if expired (cutoff_time time_now max_age_minutes) (file, f)
             then None else Some f
         | None => None
         end.
Proof.
  intros Hdir. unfold cleanup_old_csvs. rewrite Hdir. cbn [snd csv_dir saved_dir].
  eexists. split; [done|]. split; [done|].
  rewrite map_lookup_filter. destruct (dir !! file) as [f|]; [|done].
  cbn [mbind option_bind].
  destruct (expired (cutoff_time time_now max_age_minutes) (file, f)).
  - by rewrite option_guard_False by (simpl; tauto).
  - by rewrite option_guard_True by (simpl; tauto).
Qed.


(** C6, as the code has it. For a name that is in the saved
    directory: when the capture directory still holds a file of that
    name, the save answers that the file is already saved and changes
    nothing; when it does not, the save fails with 404, and changes
    nothing either. *)
Theorem save_of_saved_file (file : string) (st : Storage) :
  exists_in (saved_dir st) file = true ->
  (exists_in (csv_dir st) file = true ->
     api_save_csv file st = (Reply "File already saved" file true, st))
  /\ (exists_in (csv_dir st) file = false ->
     api_save_csv file st = (HTTPException 404 "File not found", st)).
Proof.
  intros Hsaved. unfold api_save_csv. split; intros Hcsv; rewrite Hcsv; simpl.
  - by rewrite Hsaved.
  - done.
Qed.

(** ** The blacklist *)

(** C5, as the code has it. For an address that is not in the set:
    when the append of the first call goes through, whether or not
    its reload raises, two calls in a row leave the file one line
    longer, the line of the address, and the set one element larger,
    the address; the second call changes neither the file nor the set
    and does nothing but print that the address is already
    blacklisted, and among the actions of the two calls there is one
    append and one reload. When the append of the first call raises,
    that call leaves the set and the file as they are and only prints
    the error, and the second call does what a first call would. *)
Theorem blacklist_add_twice (o1 o2 : option fault) (ip : string)
    (st : Blacklist) :
  ip ∉ blacklisted_ips st ->
  let st1 := add_ip_to_blacklist o1 ip st in
  let st2 := add_ip_to_blacklist o2 ip st1 in
  (append_fails o1 = false ->
   blacklist_txt st2 = blacklist_txt st +:+ ip +:+ String LF ""
   /\ blacklisted_ips st2 = {[ip]} ∪ blacklisted_ips st
   /\ size (blacklisted_ips st2) = S (size (blacklisted_ips st))
   /\ blacklist_txt st2 = blacklist_txt st1
   /\ blacklisted_ips st2 = blacklisted_ips st1
   /\ actions st2
      = actions st1 ++ [Print ("[BLACKLIST] " +:+ ip +:+ " already blacklisted.")]
   /\ filter is_append (drop (length (actions st)) (actions st2))
      = [Append (ip +:+ String LF "")]
   /\ filter is_run (drop (length (actions st)) (actions st2))
      = [Run "sudo suricatasc -c 'reload-rules'"])
  /\ (forall e : string, o1 = Some (AppendFails e) ->
      blacklisted_ips st1 = blacklisted_ips st
      /\ blacklist_txt st1 = blacklist_txt st
      /\ actions st1
         = actions st ++ [Print ("[ERROR] Failed to blacklist " +:+ ip
                                 +:+ ": " +:+ e)]
      /\ blacklisted_ips st2 = blacklisted_ips (add_ip_to_blacklist o2 ip st)
      /\ blacklist_txt st2 = blacklist_txt (add_ip_to_blacklist o2 ip st)
      /\ drop (length (actions st1)) (actions st2)
         = drop (length (actions st)) (actions (add_ip_to_blacklist o2 ip st))).
Proof.
  intros Hfresh st1 st2. split.
  - intros Hgoes.
    assert (H1 : st1 = {| blacklisted_ips := {[ip]} ∪ blacklisted_ips st;
                          blacklist_txt := blacklist_txt st +:+ ip +:+ String LF "";
                          actions := actions st
                            ++ [Append (ip +:+ String LF "");
                                Print ("[BLACKLIST] IP " +:+ ip
                                       +:+ " has been added to "
                                       +:+ BLACKLIST_FILE +:+ ".");
                                Run "sudo suricatasc -c 'reload-rules'"]
                            ++ match o1 with
                               | Some (ReloadFails e) =>
                                   [Print ("[ERROR] Failed to blacklist "
                                           +:+ ip +:+ ": " +:+ e)]
                               | _ => []
                               end |}).
    { subst st1. unfold add_ip_to_blacklist. rewrite decide_False by done.
      by destruct o1 as [[e|e]|]. }
    assert (Hin : ip ∈ blacklisted_ips st1).
    { rewrite H1. cbn [blacklisted_ips]. set_solver. }
    assert (H2 : st2 = {| blacklisted_ips := blacklisted_ips st1;
                          blacklist_txt := blacklist_txt st1;
                          actions := actions st1
                            ++ [Print ("[BLACKLIST] " +:+ ip
                                       +:+ " already blacklisted.")] |}).
    { subst st2. unfold add_ip_to_blacklist at 1. by rewrite decide_True. }
    rewrite H2. cbn [blacklisted_ips blacklist_txt actions].
    rewrite H1. cbn [blacklisted_ips blacklist_txt actions].
    repeat split.
    + rewrite size_union by set_solver. rewrite size_singleton. lia.
    + rewrite <- !app_assoc, drop_app_length. by destruct o1 as [[e|e]|].
    + rewrite <- !app_assoc, drop_app_length. by destruct o1 as [[e|e]|].
  - intros e ->.
    assert (H1 : st1 = {| blacklisted_ips := blacklisted_ips st;
                          blacklist_txt := blacklist_txt st;
                          actions := actions st
                            ++ [Print ("[ERROR] Failed to blacklist " +:+ ip
                                       +:+ ": " +:+ e)] |}).
    { subst st1. unfold add_ip_to_blacklist. by rewrite decide_False. }
    subst st2. rewrite H1. cbn [blacklisted_ips blacklist_txt actions].
    unfold add_ip_to_blacklist. cbn [blacklisted_ips blacklist_txt actions].
    rewrite !decide_False by done.
    destruct o2 as [[e2|e2]|]; cbn [blacklisted_ips blacklist_txt actions];
      rewrite !drop_app_length; done.
Qed.

(** * The sample log *)

Ltac by_computation := apply (bool_decide_unpack _); vm_compute; exact I.

(** The first call on the sample log: one alert stored out of four
    lines, the position written first. *)
Example sample_first_call :
  (store_new_alerts Sample.loads Sample.clock Sample.dice Sample.fresh).1 = 1%nat
  /\ writes_of Sample.loads Sample.clock Sample.dice Sample.fresh
     = [WritePosition (end_position Sample.fresh);
        WriteHistory [Sample.first_alert]]
  /\ fingerprint_of Sample.first_alert = Some "8e9228e40aadf0aa606ff2487ab3e337".
Proof. vm_compute. done. Qed.

(** C1, at the sample log: the position is written before the history,
    and after that first write the cursor file holds the new position
    while the stored alert is in no history file. *)
Lemma position_saved_first_sample :
  ~ position_saved_after_history Sample.loads Sample.clock Sample.dice Sample.fresh
  /\ ~ never_position_without_alerts Sample.loads Sample.clock Sample.dice
         Sample.fresh.
Proof.
  split.
  - intros H.
    destruct (H ltac:(vm_compute; discriminate) 0%nat (end_position Sample.fresh))
      as (j & h & Hj & _).
    + vm_compute. reflexivity.
    + lia.
  - intros H.
    specialize (H (apply_write (files Sample.fresh)
                     (WritePosition (end_position Sample.fresh)))).
    assert (Ha : Sample.first_alert ∈ default [] (alerts_db
               (apply_write (files Sample.fresh)
                  (WritePosition (end_position Sample.fresh))))).
    { apply H.
      - vm_compute. apply list_elem_of_here.
      - reflexivity.
      - vm_compute. apply list_elem_of_here.
      - vm_compute. apply list_elem_of_here. }
    vm_compute in Ha. by apply elem_of_nil in Ha.
Qed.

Lemma position_saved_before_history_sample :
  eve (files Sample.fresh) = Some Sample.log
  /\ writes_of Sample.loads Sample.clock Sample.dice Sample.fresh
     = WritePosition (end_position Sample.fresh)
       :: match unique_of Sample.loads Sample.clock Sample.dice Sample.fresh with
          | [] => []
          | _ => [WriteHistory
                    (trim (history_of Sample.fresh
                           ++ unique_of Sample.loads Sample.clock Sample.dice
                                Sample.fresh))]
          end.
Proof.
  split; [reflexivity|].
  apply (position_saved_before_history Sample.loads Sample.clock Sample.dice
           Sample.fresh Sample.log).
  reflexivity.
Defined.

(** C8, at the sample log: the second copy of the alert is rejected by
    the fingerprint of the first, and the history on disk is empty. *)
Lemma rejection_within_batch_sample :
  ~ rejections_from_stored_history Sample.loads Sample.clock Sample.dice
      Sample.fresh.
Proof.
  intros H.
  destruct (rejected_of Sample.loads Sample.clock Sample.dice Sample.fresh)
    as [|a l] eqn:Hrej; [vm_compute in Hrej; discriminate|].
  destruct (H a) as (r & Hr & _).
  - rewrite Hrej. apply list_elem_of_here.
  - vm_compute in Hr. by apply elem_of_nil in Hr.
Qed.

Lemma membership_follows_history_sample :
  eve (files Sample.fresh) = Some Sample.log
  /\ forall a : dict,
      a ∈ rejected_of Sample.loads Sample.clock Sample.dice Sample.fresh ->
      exists r : dict,
        r ∈ history_of Sample.fresh
            ++ unique_of Sample.loads Sample.clock Sample.dice Sample.fresh
        /\ fingerprint_of r = Some (batch_fingerprint a).
Proof.
  split; [reflexivity|].
  apply (membership_follows_history Sample.loads Sample.clock Sample.dice
           Sample.fresh Sample.log).
  reflexivity.
Defined.


(** A later call on the grown log reads the one added line and stores
    its alert after the first. *)
Example sample_later_call :
  lines_read Sample.grown = [Sample.line_of (Sample.scan "2024-01-01T00:00:07")]
  /\ (store_new_alerts Sample.loads Sample.late_clock Sample.late_dice
        Sample.grown).1 = 1%nat
  /\ length (history_of (store_new_alerts Sample.loads Sample.late_clock
                           Sample.late_dice Sample.grown).2) = 2%nat.
Proof. vm_compute. done. Qed.

(** Every line of the sample log, read again after the crash, is
    dropped by the loop or comes from a well-formed line whose alert
    is in the history. *)
Lemma crashed_lines_seen (i : nat) (line : string) :
  lines_read Sample.crashed !! i = Some line ->
  is_Some (process_line Sample.loads Sample.late_clock Sample.late_dice i line) ->
  well_formed_line Sample.loads line
  /\ stored_from Sample.loads (history_of Sample.crashed) line.
Proof.
  intros Hi Hsome.
  destruct i as [|[|[|[|i]]]]; vm_compute in Hi; try discriminate;
    injection Hi as <-.
  - split.
    + eexists _, _. split; vm_compute; reflexivity.
    + exists Sample.clock, Sample.dice, 0%nat, Sample.first_alert.
      split; [vm_compute; reflexivity | vm_compute; apply list_elem_of_here].
  - vm_compute in Hsome. by destruct Hsome.
  - vm_compute in Hsome. by destruct Hsome.
  - split.
    + eexists _, _. split; vm_compute; reflexivity.
    + exists Sample.clock, Sample.dice, 0%nat, Sample.first_alert.
      split; [vm_compute; reflexivity | vm_compute; apply list_elem_of_here].
Qed.

Lemma reingest_stores_no_duplicate_sample :
  eve (files Sample.crashed) = Some Sample.log
  /\ (store_new_alerts Sample.loads Sample.late_clock Sample.late_dice
        Sample.crashed).1 = 0%nat
  /\ alerts_db (files (store_new_alerts Sample.loads Sample.late_clock
                         Sample.late_dice Sample.crashed).2)
     = alerts_db (files Sample.crashed).
Proof.
  split; [reflexivity|].
  apply (reingest_stores_no_duplicate Sample.loads Sample.late_clock
           Sample.late_dice Sample.crashed Sample.log eq_refl).
  apply crashed_lines_seen.
Defined.


Lemma retention_bound_sample :
  eve (files Sample.full) = Some (Sample.line_of (Sample.scan "2024-01-01T00:00:07"))
  /\ (MAX_ALERTS < length (history_of Sample.full)
                   + length (batch_of Sample.loads Sample.clock Sample.dice
                               Sample.full))%nat
  /\ exists evicted kept : list dict,
      alerts_db (files (store_new_alerts Sample.loads Sample.clock Sample.dice
                          Sample.full).2) = Some kept
      /\ history_of Sample.full
         ++ batch_of Sample.loads Sample.clock Sample.dice Sample.full
         = evicted ++ kept
      /\ length kept = Z.to_nat 10000.
Proof.
  assert (Hlen : (MAX_ALERTS < length (history_of Sample.full)
                   + length (batch_of Sample.loads Sample.clock Sample.dice
                               Sample.full))%nat) by by_computation.
  split; [reflexivity|]. split; [exact Hlen|].
  apply (retention_bound Sample.loads Sample.clock Sample.dice Sample.full
           (Sample.line_of (Sample.scan "2024-01-01T00:00:07")) eq_refl).
  - vm_compute. discriminate.
  - by_computation.
  - by_computation.
  - exact Hlen.
Defined.

(** * Sample records, files and addresses *)

Lemma fingerprint_stable_sample :
  same_canonical_fields Sample.record Sample.shuffled
  /\ generate_alert_fingerprint 1 Sample.record
     = generate_alert_fingerprint 2 Sample.shuffled.
Proof.
  assert (H : same_canonical_fields Sample.record Sample.shuffled).
  { split.
    - intros k Hk.
      repeat (apply elem_of_cons in Hk as [-> | Hk]; [reflexivity|]).
      by apply elem_of_nil in Hk.
    - eexists _, _. split; [reflexivity|]. split; [reflexivity|].
      intros k Hk. reflexivity. }
  split; [exact H|].
  apply (fingerprint_stable 1 2 Sample.record Sample.shuffled H).
Defined.

(** A record whose ["alert"] is not an object gets the fingerprint of
    the draw. *)
Example fingerprint_of_odd_record :
  generate_alert_fingerprint 4242 [("alert", JStr "yes")] = "random_4242"
  /\ generate_alert_fingerprint 17 [("alert", JStr "yes")] = "random_17".
Proof. vm_compute. done. Qed.


(** The cleanup and the listing on the sample files: the file one
    second older than the cutoff goes, the one at the cutoff stays. *)
Example cleanup_sample :
  (cleanup_old_csvs 1000%Q 10 Sample.shelf).1 = 1%nat
  /\ name <$> list_csv_files Sample.timer false 10 Sample.shelf
     = ["new.csv"; "edge.csv"]
  /\ exists_in (csv_dir (cleanup_old_csvs 1000%Q 10 Sample.shelf).2) "old.csv"
     = false
  /\ exists_in (csv_dir (cleanup_old_csvs 1000%Q 10 Sample.shelf).2) "edge.csv"
     = true.
Proof. vm_compute. done. Qed.

(** C6, on the sample files: [gone.csv] is saved and no longer in the
    capture directory, and the save of it fails with 404. *)
Lemma save_of_saved_file_fails_sample :
  ~ save_of_saved_succeeds "gone.csv" Sample.shelf.
Proof.
  intros H. destruct H as (message & Hm); [reflexivity|].
  vm_compute in Hm. discriminate.
Qed.

Lemma save_of_saved_file_sample :
  exists_in (saved_dir Sample.shelf) "new.csv" = true
  /\ exists_in (csv_dir Sample.shelf) "new.csv" = true
  /\ api_save_csv "new.csv" Sample.shelf
     = (Reply "File already saved" "new.csv" true, Sample.shelf).
Proof.
  split; [reflexivity|]. split; [reflexivity|].
  apply (proj1 (save_of_saved_file "new.csv" Sample.shelf eq_refl)).
  reflexivity.
Defined.

(** C5, on the empty blacklist: the file cannot be written, and after
    two calls for 1.2.3.4 it has no line and the set no address. *)
Lemma add_twice_unwritable_sample :
  ~ add_twice_appends_once (Some (AppendFails "[Errno 13] Permission denied"))
      (Some (AppendFails "[Errno 13] Permission denied"))
      "1.2.3.4" Sample.no_blacklist.
Proof.
  intros H. destruct H as (Htxt & _); [by_computation|].
  vm_compute in Htxt. discriminate.
Qed.

Lemma blacklist_add_twice_sample :
  "1.2.3.4" ∉ blacklisted_ips Sample.no_blacklist
  /\ append_fails (Some (ReloadFails "timeout")) = false
  /\ blacklist_txt
       (add_ip_to_blacklist None "1.2.3.4"
          (add_ip_to_blacklist (Some (ReloadFails "timeout")) "1.2.3.4"
             Sample.no_blacklist))
     = "1.2.3.4" +:+ String LF "".
Proof.
  assert (H : "1.2.3.4" ∉ blacklisted_ips Sample.no_blacklist) by by_computation.
  split; [exact H|]. split; [reflexivity|].
  apply (proj1 (proj1 (blacklist_add_twice (Some (ReloadFails "timeout")) None
                         "1.2.3.4" Sample.no_blacklist H) eq_refl)).
Defined.

(** * Further properties of the ingestion *)

Lemma drop_bytes_all (n : nat) (s : string) :
  (String.length s <= n)%nat -> drop_bytes n s = "".
Proof.
  revert s. induction n as [|n IH]; intros s Hle.
  - destruct s; [done | simpl in Hle; lia].
  - destruct s as [|c s]; [done|]. simpl in *. apply IH. lia.
Qed.

Lemma elem_of_keep_last {A} (n : nat) (l : list A) (x : A) :
  x ∈ keep_last n l -> x ∈ l.
Proof.
  unfold keep_last. intros H.
  rewrite <- (take_drop (length l - n) l). apply elem_of_app. by right.
Qed.

Lemma elem_of_trim (history : list dict) (a : dict) :
  a ∈ trim history -> a ∈ history.
Proof.
  unfold trim. destruct (_ <? _)%nat; [apply elem_of_keep_last | done].
Qed.

Lemma trim_below_cap (history : list dict) :
  (length history <= MAX_ALERTS)%nat -> trim history = history.
Proof.
  intros H. unfold trim. destruct (Nat.ltb_spec MAX_ALERTS (length history));
    [lia | done].
Qed.

Section Calls2.

Variable json_loads : string -> option json.
Variable now : nat -> string.
Variable rnd : nat -> Z.

Local Abbreviation store := (store_new_alerts json_loads now rnd).
Local Abbreviation batch := (batch_of json_loads now rnd).
Local Abbreviation unique := (unique_of json_loads now rnd).

(** The history a call leaves. *)
Lemma history_after_store (s : Sys) (text : string) :
  eve (files s) = Some text ->
  history_of (store s).2
  = match unique s with
    | [] => history_of s
    | _ => trim (history_of s ++ unique s)
    end.
Proof.
  intros Heve. rewrite (store_new_alerts_run _ _ _ s text) by done.
  cbn [snd]. unfold after_store. by destruct (unique s).
Qed.

Lemma position_after_store (s : Sys) (text : string) :
  eve (files s) = Some text ->
  last_processed (files (store s).2) = Some (end_position s)
  /\ eve (files (store s).2) = Some text.
Proof.
  intros Heve. rewrite (store_new_alerts_run _ _ _ s text) by done.
  cbn [snd]. unfold after_store. by destruct (unique s).
Qed.

(** A position at or past the end of the log: no line is read. *)
Lemma nothing_read_past_end (s : Sys) (text : string) :
  eve (files s) = Some text ->
  (String.length text <= last_pos_of s)%nat ->
  lines_read s = [] /\ end_position s = last_pos_of s.
Proof.
  intros Heve Hle. unfold lines_read, end_position, eve_text.
  rewrite Heve. cbn [from_option id]. split.
  - by rewrite drop_bytes_all.
  - lia.
Qed.

Lemma store_past_end (s : Sys) (text : string) :
  eve (files s) = Some text ->
  (String.length text <= last_pos_of s)%nat ->
  store s
  = (0%nat,
     {| files := {| eve := eve (files s);
                    last_processed := Some (last_pos_of s);
                    alerts_db := alerts_db (files s) |};
        writes := writes s ++ [WritePosition (last_pos_of s)] |}).
Proof.
  intros Heve Hle.
  destruct (nothing_read_past_end s text Heve Hle) as [Hlines Hend].
  rewrite (nothing_new_run json_loads now rnd s text Heve).
  - by rewrite Hend.
  - intros i line Hi. rewrite Hlines in Hi. done.
Qed.

(** X1. When the position of the cursor file is at or past the end of
    the event log, as after the log was cut or replaced by a shorter
    one, the call reads nothing: it returns 0, writes the same
    position again and leaves the history file alone. *)
Theorem stale_cursor_reads_nothing (s : Sys) (text : string) :
  eve (files s) = Some text ->
  (String.length text <= last_pos_of s)%nat ->
  lines_read s = []
  /\ store s
     = (0%nat,
        {| files := {| eve := eve (files s);
                       last_processed := Some (last_pos_of s);
                       alerts_db := alerts_db (files s) |};
           writes := writes s ++ [WritePosition (last_pos_of s)] |}).
Proof.
  intros Heve Hle. split.
  - by apply (nothing_read_past_end s text).
  - by apply (store_past_end s text).
Qed.


(** X3. No call moves the position back: the position in the cursor
    file after a call is at least the one before it, whatever the
    event log holds, also when the log is shorter than the position
    or is missing. *)
Theorem cursor_never_moves_back (s : Sys) :
  (last_pos_of s <= last_pos_of (store s).2)%nat.
Proof.
  destruct (eve (files s)) as [text|] eqn:Heve.
  - destruct (position_after_store s text Heve) as [Hpos _].
    unfold last_pos_of at 2. rewrite Hpos. cbn [from_option id].
    unfold end_position. lia.
  - by rewrite store_new_alerts_no_log.
Qed.

(** X4. The history never grows past the cap: after a call it is at
    most 10000 entries long when it was so before, and it is in any
    case no longer than the larger of its length before and 10000. *)
Theorem history_within_cap (s : Sys) :
  (length (history_of (store s).2)
   <= Nat.max (length (history_of s)) (Z.to_nat 10000))%nat
  /\ ((length (history_of s) <= Z.to_nat 10000)%nat ->
      (length (history_of (store s).2) <= Z.to_nat 10000)%nat).
Proof.
  change (Z.to_nat 10000) with MAX_ALERTS.
  assert (H : (length (history_of (store s).2)
               <= Nat.max (length (history_of s)) MAX_ALERTS)%nat).
  { destruct (eve (files s)) as [text|] eqn:Heve.
    - rewrite (history_after_store s text Heve).
      destruct (unique s) as [|u us]; [lia|].
      pose proof (length_trim (history_of s ++ u :: us)). lia.
    - rewrite store_new_alerts_no_log by done. cbn [snd]. lia. }
  split; [exact H | lia].
Qed.

(** X5. Below the cap the history only grows at its end: when the
    entries found and the alerts kept are together at most 10000, the
    history after the call is the history before it followed by the
    alerts kept, in the order of their lines, and the number returned
    is the number of entries added. *)
Theorem history_append_only_below_cap (s : Sys) (text : string) :
  eve (files s) = Some text ->
  (length (history_of s) + length (unique s) <= Z.to_nat 10000)%nat ->
  history_of (store s).2 = history_of s ++ unique s
  /\ unique s `sublist_of` batch s
  /\ length (history_of (store s).2)
     = (length (history_of s) + (store s).1)%nat.
Proof.
  change (Z.to_nat 10000) with MAX_ALERTS. intros Heve Hlen.
  assert (Hh : history_of (store s).2 = history_of s ++ unique s).
  { rewrite (history_after_store s text Heve).
    destruct (unique s) as [|u us] eqn:Hu; [by rewrite app_nil_r|].
    apply trim_below_cap. by rewrite length_app. }
  split; [done|]. split; [apply filter_unique_sublist|].
  rewrite Hh, length_app.
  by rewrite (store_new_alerts_run _ _ _ s text).
Qed.

(** X6. Every entry of the history after a call was in the history
    before it or was made, in this call, of a line that decodes to an
    object with a true ["alert"]; such an entry holds every field of
    the decoded object unchanged, ["stored_at"] and ["_fingerprint"]
    apart, which hold the time of the call and the fingerprint. *)
Theorem stored_alert_keeps_fields (s : Sys) (a : dict) :
  a ∈ history_of (store s).2 ->
  a ∈ history_of s
  \/ exists (i : nat) (line : string) (obj : dict),
      lines_read s !! i = Some line
      /\ json_loads (strip line) = Some (JObj obj)
      /\ truthy (dict_get_default obj "alert" JNull) = true
      /\ (forall k : string,
            k <> "stored_at" -> k <> "_fingerprint" ->
            dict_get a k = dict_get obj k)
      /\ dict_get a "stored_at" = Some (JStr (now i))
      /\ dict_get a "_fingerprint"
         = Some (JStr (generate_alert_fingerprint (rnd i)
                         (dict_set obj "stored_at" (JStr (now i))))).
Proof.
  destruct (eve (files s)) as [text|] eqn:Heve.
  - rewrite (history_after_store s text Heve).
    assert (Hu : a ∈ unique s ->
      exists (i : nat) (line : string) (obj : dict),
        lines_read s !! i = Some line
        /\ json_loads (strip line) = Some (JObj obj)
        /\ truthy (dict_get_default obj "alert" JNull) = true
        /\ (forall k : string,
              k <> "stored_at" -> k <> "_fingerprint" ->
              dict_get a k = dict_get obj k)
        /\ dict_get a "stored_at" = Some (JStr (now i))
        /\ dict_get a "_fingerprint"
           = Some (JStr (generate_alert_fingerprint (rnd i)
                           (dict_set obj "stored_at" (JStr (now i)))))).
    { intros Ha. apply filter_unique_elem_of in Ha.
      apply elem_of_read_new_alerts in Ha as (i & line & Hi & Hp).
      apply process_line_inv in Hp as (obj & Hobj & Ht & ->).
      exists i, line, obj. repeat split; try done.
      - intros k Hk1 Hk2. by rewrite !dict_get_set_ne.
      - rewrite dict_get_set_ne by done. apply dict_get_set_eq.
      - apply dict_get_set_eq. }
    destruct (unique s) as [|u us] eqn:Huniq; [by left|].
    intros Ha. apply elem_of_trim, elem_of_app in Ha as [Ha | Ha];
      [by left | right; by apply Hu].
  - rewrite store_new_alerts_no_log by done. by left.
Qed.

End Calls2.

(** * The shape of a fingerprint *)

Lemma string_length_app (a b : string) :
  String.length (a +:+ b) = (String.length a + String.length b)%nat.
Proof. induction a as [|c a IH]; simpl; [done | by rewrite IH]. Qed.

Lemma length_bytes_le (width : nat) (x : Z) :
  length (MD5.bytes_le width x) = width.
Proof. unfold MD5.bytes_le. by rewrite length_map, length_seq. Qed.

Lemma length_digest (msg : list Z) : length (MD5.digest msg) = 16%nat.
Proof. unfold MD5.digest. by rewrite !length_app, !length_bytes_le. Qed.

Lemma length_hex_of_bytes (bytes : list Z) :
  String.length (fold_right (fun b acc => MD5.hex_byte b +:+ acc) "" bytes)
  = (2 * length bytes)%nat.
Proof.
  induction bytes as [|b rest IH]; [done|].
  cbn [fold_right length]. rewrite string_length_app, IH.
  unfold MD5.hex_byte. cbn [String.length]. lia.
Qed.

Lemma length_hexdigest (s : string) : String.length (MD5.hexdigest s) = 32%nat.
Proof. unfold MD5.hexdigest. by rewrite length_hex_of_bytes, length_digest. Qed.

(** A digit of the digest is not the letter the fallback begins
    with. *)
Lemma hex_digit_not_r (b : Z) :
  MD5.hex_digit (Z.shiftr (Z.land b 0xff) 4) <> "r"%char.
Proof.
  assert (Hb : 0 <= Z.land b 0xff < 256).
  { change 0xff with (Z.ones 8). rewrite Z.land_ones by lia.
    apply Z.mod_pos_bound. lia. }
  assert (Hd : 0 <= Z.shiftr (Z.land b 0xff) 4 < 16).
  { rewrite Z.shiftr_div_pow2 by lia. change (2 ^ 4) with 16.
    split; [apply Z.div_pos; lia | apply Z.div_lt_upper_bound; lia]. }
  set (d := Z.shiftr (Z.land b 0xff) 4) in *.
  assert (Hcases : d = 0 \/ d = 1 \/ d = 2 \/ d = 3 \/ d = 4 \/ d = 5
                   \/ d = 6 \/ d = 7 \/ d = 8 \/ d = 9 \/ d = 10 \/ d = 11
                   \/ d = 12 \/ d = 13 \/ d = 14 \/ d = 15) by lia.
  clearbody d.
  repeat (destruct Hcases as [-> | Hcases]; [by vm_compute|]).
  subst d. by vm_compute.
Qed.

Lemma hexdigest_not_random (s : string) (rnd : Z) :
  MD5.hexdigest s <> "random_" +:+ pretty rnd.
Proof.
  unfold MD5.hexdigest.
  pose proof (length_digest (MD5.bytes_of_string s)) as Hlen.
  unfold MD5.digest in *.
  destruct (MD5.bytes_le 4 _) as [|b0 bs] eqn:Hb at 1.
  - pose proof (length_bytes_le 4
      (MD5.rA (MD5.blocks (length (MD5.pad (MD5.bytes_of_string s)) / 64)
                 (MD5.pad (MD5.bytes_of_string s)) MD5.init))) as Hl.
    rewrite Hb in Hl. done.
  - unfold MD5.bytes_le in Hb. cbn [seq map] in Hb. injection Hb as <- _.
    cbn [app fold_right]. unfold MD5.hex_byte at 1.
    intros Heq. injection Heq as Heq _.
    by apply hex_digit_not_r in Heq.
Qed.

(** X7. The fingerprint of a record whose ["alert"] is an object, or
    is missing, is 32 characters long. *)
Theorem digest_fingerprint_length (rnd : Z) (r alert : dict) :
  alert_descriptor r = Some alert ->
  String.length (generate_alert_fingerprint rnd r) = 32%nat.
Proof.
  intros Ha. rewrite (generate_alert_fingerprint_object rnd r alert Ha).
  apply length_hexdigest.
Qed.

(** X8. The fingerprint of a record whose ["alert"] is not an object
    is the word [random_] followed by the draw, and it is the
    fingerprint of no record whose ["alert"] is an object: a record of
    the one kind is never taken for a duplicate of one of the
    other. *)
Theorem fallback_fingerprint_apart (rnd1 rnd2 : Z) (r1 r2 alert : dict) :
  alert_descriptor r1 = Some alert ->
  alert_descriptor r2 = None ->
  generate_alert_fingerprint rnd2 r2 = "random_" +:+ pretty rnd2
  /\ generate_alert_fingerprint rnd1 r1 <> generate_alert_fingerprint rnd2 r2.
Proof.
  intros H1 H2.
  assert (Hr : generate_alert_fingerprint rnd2 r2 = "random_" +:+ pretty rnd2).
  { unfold alert_descriptor in H2. unfold generate_alert_fingerprint.
    by destruct (dict_get_default r2 "alert" (JObj [])). }
  split; [done|]. rewrite Hr.
  rewrite (generate_alert_fingerprint_object rnd1 r1 alert H1).
  apply hexdigest_not_random.
Qed.

(** * Reading and clearing the history *)

Lemma slice_from_suffix {A} (start : Z) (l : list A) :
  exists older : list A, l = older ++ slice_from start l.
Proof.
  unfold slice_from. eexists. symmetry. apply take_drop.
Qed.

Lemma slice_from_last {A} (n : Z) (l : list A) :
  0 < n -> slice_from (- n) l = keep_last (Z.to_nat n) l.
Proof.
  intros Hn. unfold slice_from, keep_last.
  destruct (Z.ltb_spec (- n) 0); [|lia]. f_equal. lia.
Qed.

Lemma slice_from_drop {A} (n : Z) (l : list A) :
  n <= 0 -> slice_from (- n) l = drop (Z.to_nat (- n)) l.
Proof.
  intros Hn. unfold slice_from.
  destruct (Z.ltb_spec (- n) 0); [lia|].
  destruct (Z.min_spec (- n) (Z.of_nat (length l))) as [[_ ->] | [Hge ->]];
    [done|].
  rewrite Nat2Z.id. rewrite !drop_ge; [done | lia | lia].
Qed.

Section Queried.

Variable json_loads : string -> option json.
Variable now : nat -> string.
Variable rnd : nat -> Z.

Local Abbreviation store := (store_new_alerts json_loads now rnd).

Lemma read_eve_alerts_run (limit : Z) (s : Sys) :
  read_eve_alerts json_loads now rnd limit s
  = (match history_of (store s).2 with
     | [] => []
     | _ => slice_from (- limit) (history_of (store s).2)
     end, (store s).2).
Proof.
  unfold read_eve_alerts, bind, ret, load_alert_history, history_of.
  by destruct (store s) as [n s'].
Qed.

Lemma read_eve_alerts_slice (limit : Z) (s : Sys) :
  (read_eve_alerts json_loads now rnd limit s).1
  = slice_from (- limit) (history_of (store s).2).
Proof.
  rewrite read_eve_alerts_run. cbn [fst].
  destruct (history_of (store s).2) eqn:Hh; [|done].
  unfold slice_from. by rewrite drop_nil.
Qed.

Lemma api_alerts_run (limit : Z) (s : Sys) :
  api_alerts json_loads now rnd limit s
  = ({| alerts := (read_eve_alerts json_loads now rnd limit s).1;
        total_in_history := length (history_of (store s).2);
        returned := length (read_eve_alerts json_loads now rnd limit s).1 |},
     (store s).2).
Proof.
  unfold api_alerts, bind, ret, load_alert_history.
  rewrite read_eve_alerts_run. done.
Qed.

(** X9. Whatever the limit, the alerts [api_alerts] returns are the
    end of the history as the ingestion it starts with leaves it:
    [returned] is their number, [total_in_history] the length of that
    history, and the first is never more than the second. *)
Theorem api_alerts_returns_the_end (limit : Z) (s : Sys) :
  let reply := (api_alerts json_loads now rnd limit s).1 in
  (api_alerts json_loads now rnd limit s).2 = (store s).2
  /\ total_in_history reply = length (history_of (store s).2)
  /\ returned reply = length (alerts reply)
  /\ (returned reply <= total_in_history reply)%nat
  /\ exists older : list dict,
      history_of (store s).2 = older ++ alerts reply.
Proof.
  rewrite api_alerts_run. cbn [fst snd alerts total_in_history returned].
  rewrite read_eve_alerts_slice.
  destruct (slice_from_suffix (- limit) (history_of (store s).2)) as [older Ho].
  repeat split.
  - rewrite Ho at 2. rewrite length_app. lia.
  - by exists older.
Qed.

(** X10. With a positive limit [read_eve_alerts] returns the last
    [limit] entries of the history, all of them when there are
    fewer. *)
Theorem read_eve_alerts_positive_limit (limit : Z) (s : Sys) :
  0 < limit ->
  (read_eve_alerts json_loads now rnd limit s).1
  = keep_last (Z.to_nat limit) (history_of (store s).2)
  /\ length (read_eve_alerts json_loads now rnd limit s).1
     = Nat.min (Z.to_nat limit) (length (history_of (store s).2)).
Proof.
  intros Hl. rewrite read_eve_alerts_slice, slice_from_last by done.
  split; [done|]. unfold keep_last. rewrite length_drop. lia.
Qed.

(** X11. A limit that is not positive does not limit: with 0 the
    whole history is returned, and with [-k] the history without its
    [k] oldest entries. *)
Theorem read_eve_alerts_without_limit (limit : Z) (s : Sys) :
  limit <= 0 ->
  (read_eve_alerts json_loads now rnd limit s).1
  = drop (Z.to_nat (- limit)) (history_of (store s).2)
  /\ (limit = 0 ->
      (read_eve_alerts json_loads now rnd limit s).1
      = history_of (store s).2).
Proof.
  intros Hl. rewrite read_eve_alerts_slice, slice_from_drop by done.
  split; [done|]. by intros ->.
Qed.


End Queried.

(** * Further properties of the capture files *)

Lemma insert_sorted_StronglySorted {A} (le : A -> A -> bool) (x : A) (l : list A) :
  (forall a b : A, le a b = false -> le b a = true) ->
  (forall a b c : A, le a b = true -> le b c = true -> le a c = true) ->
  StronglySorted (fun a b => le a b = true) l ->
  StronglySorted (fun a b => le a b = true) (insert_sorted le x l).
Proof.
  intros Htotal Htrans. induction 1 as [|y rest Hs IH Hy]; simpl.
  - repeat constructor.
  - destruct (le x y) eqn:Hxy.
    + constructor; [by constructor|].
      constructor; [done|]. eapply Forall_impl; [exact Hy|].
      intros z Hz. by eapply Htrans.
    + constructor; [done|].
      apply Forall_forall. intros z Hz.
      rewrite insert_sorted_perm in Hz.
      apply elem_of_cons in Hz as [-> | Hz]; [by apply Htotal|].
      rewrite Forall_forall in Hy. by apply Hy.
Qed.

Lemma sort_by_StronglySorted {A} (le : A -> A -> bool) (l : list A) :
  (forall a b : A, le a b = false -> le b a = true) ->
  (forall a b c : A, le a b = true -> le b c = true -> le a c = true) ->
  StronglySorted (fun a b => le a b = true) (sort_by le l).
Proof.
  intros Htotal Htrans. induction l as [|x rest IH]; simpl.
  - constructor.
  - by apply insert_sorted_StronglySorted.
Qed.

Lemma StronglySorted_impl {A} (R S : A -> A -> Prop) (l : list A) :
  (forall a b : A, R a b -> S a b) ->
  StronglySorted R l -> StronglySorted S l.
Proof.
  intros HRS. induction 1 as [|x rest Hs IH Hx].
  - constructor.
  - constructor; [exact IH|].
    eapply Forall_impl; [exact Hx|]. intros b Hb. by apply HRS.
Qed.

Lemma Qle_bool_total (x y : Q) : Qle_bool x y = false -> Qle_bool y x = true.
Proof.
  intros H. apply Qle_bool_iff. apply Qlt_le_weak, Qnot_le_lt.
  intros Hle. apply Qle_bool_iff in Hle. congruence.
Qed.

Lemma Qle_bool_trans (x y z : Q) :
  Qle_bool x y = true -> Qle_bool y z = true -> Qle_bool x z = true.
Proof. rewrite !Qle_bool_iff. apply Qle_trans. Qed.

(** The listing when the capture directory is there: a permutation of
    the recent capture files followed by the saved files asked
    for. *)
Lemma list_csv_files_perm (clock : nat -> Q) (include_saved : bool)
    (max_age_minutes : Z) (st : Storage) (dir : gmap string csv_file) :
  csv_dir st = Some dir ->
  let regular := imap (fun i => info_of clock false (S i)) (glob_csv_sorted dir) in
  list_csv_files clock include_saved max_age_minutes st
  ≡ₚ filter (fun fi => Qle_bool (cutoff_time (clock O) max_age_minutes)
                               (info_mtime fi)) regular
     ++ match include_saved, saved_dir st with
        | true, Some sdir =>
            imap (fun i => info_of clock true (S (length regular + i)))
                 (glob_csv_sorted sdir)
        | _, _ => []
        end.
Proof.
  intros Hdir regular. unfold list_csv_files. rewrite Hdir.
  rewrite sort_by_perm. fold regular.
  destruct include_saved, (saved_dir st); by rewrite ?app_nil_r.
Qed.

Lemma listing_sorted_helper (clock : nat -> Q) (include_saved : bool)
    (max_age_minutes : Z) (st : Storage) :
  StronglySorted (fun a b => (info_mtime b <= info_mtime a)%Q)
    (list_csv_files clock include_saved max_age_minutes st).
Proof.
  unfold list_csv_files. destruct (csv_dir st); [|constructor].
  eapply StronglySorted_impl;
    [|apply sort_by_StronglySorted].
  - intros a b H. by apply Qle_bool_iff in H.
  - intros a b. apply Qle_bool_total.
  - intros a b c Hab Hbc. by eapply Qle_bool_trans.
Qed.

(** X13. The listing is in order of modification time, newest first:
    no entry is newer than one that comes before it. *)
Theorem listing_newest_first (clock : nat -> Q) (include_saved : bool)
    (max_age_minutes : Z) (st : Storage) :
  StronglySorted (fun a b => (info_mtime b <= info_mtime a)%Q)
    (list_csv_files clock include_saved max_age_minutes st).
Proof. apply listing_sorted_helper. Qed.

(** X14. With the capture directory there, every matching file of the
    saved directory is in the listing that includes saved files,
    marked as saved and whatever its age; and the listing that does
    not include them has no entry marked as saved. *)
Theorem listing_saved_files (clock : nat -> Q) (max_age_minutes : Z)
    (st : Storage) (dir sdir : gmap string csv_file) (file : string)
    (f : csv_file) :
  csv_dir st = Some dir ->
  saved_dir st = Some sdir ->
  sdir !! file = Some f ->
  is_csv file = true ->
  (exists fi : file_info,
      fi ∈ list_csv_files clock true max_age_minutes st
      /\ name fi = file /\ saved fi = true /\ info_mtime fi = mtime f)
  /\ forall fi : file_info,
      fi ∈ list_csv_files clock false max_age_minutes st -> saved fi = false.
Proof.
  intros Hdir Hsdir Hf Hcsv. split.
  - assert (Hg : (file, f) ∈ glob_csv_sorted sdir)
      by (by apply elem_of_glob_csv_sorted).
    apply list_elem_of_lookup in Hg as (i & Hi).
    set (regular := imap (fun i => info_of clock false (S i)) (glob_csv_sorted dir)).
    exists (info_of clock true (S (length regular + i)) (file, f)).
    split; [|done].
    rewrite (list_csv_files_perm clock true max_age_minutes st dir Hdir).
    rewrite Hsdir. apply elem_of_app. right.
    apply (elem_of_imap_info clock true (S (length regular))).
    by exists i, (file, f).
  - intros fi Hfi.
    rewrite (list_csv_files_perm clock false max_age_minutes st dir Hdir) in Hfi.
    cbn zeta in Hfi. rewrite app_nil_r in Hfi.
    apply list_elem_of_filter in Hfi as [_ Hfi].
    apply (elem_of_imap_info clock false 1) in Hfi as (i & e & _ & ->). done.
Qed.

Lemma expired_complement (cutoff : Q) (dir : gmap string csv_file) :
  filter (fun e => negb (expired cutoff e)) dir
  = filter (fun e => ~ expired cutoff e) dir.
Proof.
  apply map_filter_ext. intros i x _.
  destruct (expired cutoff (i, x)); simpl; naive_solver.
Qed.

(** X15. The cleanup leaves the saved directory as it is, takes files
    out of the capture directory and puts none in, returns the number
    of files it took out, and takes out no file whose name does not
    match. *)
Theorem cleanup_accounts_for_every_file (time_now : Q) (max_age_minutes : Z)
    (st : Storage) (dir : gmap string csv_file) :
  csv_dir st = Some dir ->
  saved_dir (cleanup_old_csvs time_now max_age_minutes st).2 = saved_dir st
  /\ exists dir' : gmap string csv_file,
      csv_dir (cleanup_old_csvs time_now max_age_minutes st).2 = Some dir'
      /\ dir' ⊆ dir
      /\ size dir
         = ((cleanup_old_csvs time_now max_age_minutes st).1 + size dir')%nat
      /\ forall (file : string) (f : csv_file),
          dir !! file = Some f -> is_csv file = false ->
          dir' !! file = Some f.
Proof.
  intros Hdir. unfold cleanup_old_csvs. rewrite Hdir.
  cbn [fst snd csv_dir saved_dir]. split; [done|].
  set (cutoff := cutoff_time time_now max_age_minutes).
  eexists. split; [done|]. split; [apply map_filter_subseteq|]. split.
  - rewrite expired_complement.
    rewrite <- (map_filter_union_complement (fun e => expired cutoff e) dir) at 1.
    apply map_size_disj_union, map_disjoint_filter_complement.
  - intros file f Hf Hcsv. apply map_lookup_filter_Some. split; [done|].
    unfold expired. cbn [fst]. by rewrite Hcsv.
Qed.


(** The capture files the listing names: the matching files of the
    capture directory that are not older than the cutoff. *)
Lemma listed_capture_file (clock : nat -> Q) (include_saved : bool)
    (max_age_minutes : Z) (st : Storage) (dir : gmap string csv_file)
    (file : string) :
  csv_dir st = Some dir ->
  (exists fi : file_info,
      fi ∈ list_csv_files clock include_saved max_age_minutes st
      /\ name fi = file /\ saved fi = false)
  <-> exists f : csv_file,
        dir !! file = Some f /\ is_csv file = true
        /\ Qle_bool (cutoff_time (clock O) max_age_minutes) (mtime f) = true.
Proof.
  intros Hdir. split.
  - intros (fi & Hin & Hname & Hsaved).
    destruct (proj1 (list_csv_files_regular clock include_saved
                       max_age_minutes st dir fi Hdir) (conj Hin Hsaved))
      as (i & e & Hi & -> & Hle).
    cbn [name info_of] in Hname. subst file.
    apply list_elem_of_lookup_2, elem_of_glob_csv_sorted in Hi as [Hcsv He].
    by exists e.2.
  - intros (f & Hf & Hcsv & Hle).
    assert (Hg : (file, f) ∈ glob_csv_sorted dir)
      by (by apply elem_of_glob_csv_sorted).
    apply list_elem_of_lookup in Hg as (i & Hi).
    exists (info_of clock false (S i) (file, f)).
    assert (Hboth := proj2 (list_csv_files_regular clock include_saved
                              max_age_minutes st dir
                              (info_of clock false (S i) (file, f)) Hdir)).
    destruct Hboth as [Hin _]; [by exists i, (file, f)|]. done.
Qed.

(** X17. A cleanup does not change which capture files the listing
    made with the same clock reading and the same age names: what it
    takes out the listing left out already. *)
Theorem cleanup_keeps_listing (clock : nat -> Q) (include_saved : bool)
    (max_age_minutes : Z) (st : Storage) (file : string) :
  (exists fi : file_info,
      fi ∈ list_csv_files clock include_saved max_age_minutes st
      /\ name fi = file /\ saved fi = false)
  <-> exists fi : file_info,
        fi ∈ list_csv_files clock include_saved max_age_minutes
               (cleanup_old_csvs (clock O) max_age_minutes st).2
        /\ name fi = file /\ saved fi = false.
Proof.
  destruct (csv_dir st) as [dir|] eqn:Hdir.
  - destruct (cleanup_old_csvs_lookup (clock O) max_age_minutes st dir file Hdir)
      as (dir' & Hdir' & _ & Hlook).
    rewrite (listed_capture_file clock include_saved max_age_minutes st dir file Hdir).
    rewrite (listed_capture_file clock include_saved max_age_minutes _ dir' file Hdir').
    rewrite Hlook. split.
    + intros (f & Hf & Hcsv & Hle). exists f. rewrite Hf.
      unfold expired. cbn [fst snd]. rewrite Hcsv. cbn [andb].
      destruct (Qltb _ _) eqn:Hlt; [|done].
      apply Qltb_lt in Hlt. apply Qle_bool_iff in Hle.
      by apply Qlt_not_le in Hlt.
    + intros (f & Hf & Hcsv & Hle). exists f.
      destruct (dir !! file) as [f'|]; [|done].
      destruct (expired _ _); [done|]. by injection Hf as ->.
  - unfold cleanup_old_csvs. by rewrite Hdir.
Qed.

(** X18. A file whose save succeeded can be read after any cleanup:
    [api_file] finds it, in the capture directory or, once the
    cleanup has taken it out of there, among the saved files. *)
Theorem saved_file_survives_cleanup (row : Type)
    (csv_reader : string -> option (list (option row)))
    (file message : string) (st st1 : Storage) (time_now : Q)
    (max_age_minutes limit : Z) :
  api_save_csv file st = (Reply message file true, st1) ->
  exists (rows : list row) (is_saved : bool),
    api_file row csv_reader file limit
      (cleanup_old_csvs time_now max_age_minutes st1).2
    = FileReply row file rows is_saved.
Proof.
  intros Hsave.
  assert (Hs : is_Some (lookup_in (saved_dir st1) file)).
  { unfold api_save_csv in Hsave.
    destruct (exists_in (csv_dir st) file) eqn:Hc; [|done]. cbn [negb] in Hsave.
    destruct (exists_in (saved_dir st) file) eqn:Hsv.
    - injection Hsave as _ <-. unfold exists_in in Hsv.
      destruct (saved_dir st); [|done]. by apply bool_decide_eq_true in Hsv.
    - unfold copy2 in Hsave.
      destruct (csv_dir st) as [dir|]; [|done].
      destruct (saved_dir st) as [sdir|]; [|done].
      destruct (dir !! file) as [f|]; [|done].
      injection Hsave as _ <-. cbn [saved_dir lookup_in].
      rewrite lookup_insert_eq. done. }
  assert (Hkeep : saved_dir (cleanup_old_csvs time_now max_age_minutes st1).2
                  = saved_dir st1).
  { unfold cleanup_old_csvs. by destruct (csv_dir st1). }
  unfold api_file. rewrite Hkeep.
  destruct (lookup_in (csv_dir _) file); [by eexists _, _|].
  destruct Hs as [f ->]. by eexists _, _.
Qed.

(** X19. Saving a capture file that is not saved yet puts a copy of
    it, with its modification time, among the saved files, and taking
    it out again with [api_unsave_csv] gives back the two directories
    as they were. *)
Theorem unsave_after_save (file : string) (dir sdir : gmap string csv_file)
    (f : csv_file) :
  dir !! file = Some f ->
  sdir !! file = None ->
  let st := {| csv_dir := Some dir; saved_dir := Some sdir |} in
  (api_save_csv file st).1 = Reply "File saved successfully" file true
  /\ saved_dir (api_save_csv file st).2 = Some (<[file := f]> sdir)
  /\ csv_dir (api_save_csv file st).2 = Some dir
  /\ api_unsave_csv file (api_save_csv file st).2
     = (Reply "File removed from saved" file false, st).
Proof.
  intros Hf Hs st.
  assert (Hsave : api_save_csv file st
    = (Reply "File saved successfully" file true,
       {| csv_dir := Some dir; saved_dir := Some (<[file := f]> sdir) |})).
  { unfold api_save_csv, copy2, exists_in. subst st. cbn [csv_dir saved_dir].
    rewrite Hf, Hs. rewrite bool_decide_eq_true_2 by done.
    by rewrite bool_decide_eq_false_2 by (by intros [? ?]). }
  rewrite Hsave. cbn [fst snd csv_dir saved_dir]. repeat split.
  unfold api_unsave_csv. cbn [csv_dir saved_dir].
  rewrite lookup_insert_eq. rewrite bool_decide_eq_true_2 by done.
  by rewrite delete_insert_id.
Qed.

(** X20. [api_unsave_csv] takes the one name out of the saved
    directory and changes nothing else: the capture directory and the
    other saved files stay; it fails with 404, changing nothing,
    exactly when the name is not among the saved files. *)
Theorem unsave_only_that_file (file : string) (st : Storage) :
  csv_dir (api_unsave_csv file st).2 = csv_dir st
  /\ lookup_in (saved_dir (api_unsave_csv file st).2) file = None
  /\ (forall other : string,
        other <> file ->
        lookup_in (saved_dir (api_unsave_csv file st).2) other
        = lookup_in (saved_dir st) other)
  /\ ((api_unsave_csv file st).1 = HTTPException 404 "Saved file not found"
      <-> lookup_in (saved_dir st) file = None)
  /\ (lookup_in (saved_dir st) file = None -> (api_unsave_csv file st).2 = st).
Proof.
  unfold api_unsave_csv.
  destruct (saved_dir st) as [sdir|] eqn:Hs; cbn [lookup_in].
  - destruct (sdir !! file) as [f|] eqn:Hf.
    + rewrite bool_decide_eq_true_2 by done.
      cbn [fst snd csv_dir saved_dir lookup_in]. repeat split; try done.
      * apply lookup_delete_eq.
      * intros other Hne. by apply lookup_delete_ne.
    + rewrite bool_decide_eq_false_2 by (by intros [? ?]).
      cbn [fst snd]. rewrite Hs. cbn [lookup_in]. by repeat split.
  - cbn [fst snd]. rewrite Hs. by repeat split.
Qed.

(** * Reading capture files *)

Section RowsRead.

Variable row : Type.
Variable csv_reader : string -> option (list (option row)).

Local Abbreviation head_of := (read_csv_head row csv_reader).

Lemma take_rows_prefix (limit i : Z) (rs : list (option row)) (rows : list row) :
  take_rows row limit i rs = Some rows ->
  (length rows <= Z.to_nat (limit - i))%nat
  /\ (Some <$> rows) `prefix_of` rs.
Proof.
  revert i rows. induction rs as [|[r|] rest IH]; intros i rows; simpl.
  - intros [= <-]. split; [simpl; lia | apply prefix_nil].
  - destruct (Z.leb_spec limit i).
    + intros [= <-]. split; [simpl; lia | apply prefix_nil].
    + destruct (take_rows row limit (i + 1) rest) as [more|] eqn:Hm; [|done].
      intros [= <-]. destruct (IH (i + 1) more Hm) as [Hlen Hpre].
      split; [simpl; lia | rewrite fmap_cons; by apply prefix_cons].
  - done.
Qed.

(** X21. [read_csv_head] raises only for a file that is not there.
    For one that is, it returns at most [limit] rows, none when the
    limit is not positive, and they are the first rows the reader
    yields. *)
Theorem read_csv_head_bounded (f : csv_file) (limit : Z) :
  head_of None limit = None
  /\ exists rows : list row,
      head_of (Some f) limit = Some rows
      /\ (length rows <= Z.to_nat limit)%nat
      /\ (limit <= 0 -> rows = [])
      /\ forall rs : list (option row),
          csv_reader (content f) = Some rs -> (Some <$> rows) `prefix_of` rs.
Proof.
  split; [done|]. unfold read_csv_head. eexists. split; [done|].
  assert (H : (length (match csv_reader (content f) with
                       | Some rows => default [] (take_rows row limit 0 rows)
                       | None => []
                       end) <= Z.to_nat limit)%nat
              /\ forall rs : list (option row),
                  csv_reader (content f) = Some rs ->
                  (Some <$> match csv_reader (content f) with
                            | Some rows => default [] (take_rows row limit 0 rows)
                            | None => []
                            end) `prefix_of` rs).
  { destruct (csv_reader (content f)) as [rs|]; [|split; [simpl; lia | done]].
    destruct (take_rows row limit 0 rs) as [rows|] eqn:Ht.
    - apply take_rows_prefix in Ht as [Hlen Hpre].
      rewrite Z.sub_0_r in Hlen. split; [done|]. by intros ? [= <-].
    - split; [simpl; lia|]. intros ? _. apply prefix_nil. }
  destruct H as [Hlen Hpre]. split; [done|]. split; [|done].
  intros Hl. apply length_zero_iff_nil. lia.
Qed.

(** X22. [api_file] answers 404 exactly when the name is in neither
    directory; it marks the file as saved only when it is not in the
    capture directory; and for a name in both it serves the capture
    file. *)
Theorem api_file_precedence (file : string) (limit : Z) (st : Storage) :
  (api_file row csv_reader file limit st = FileError row 404 "File not found"
   <-> lookup_in (csv_dir st) file = None
       /\ lookup_in (saved_dir st) file = None)
  /\ (forall rows : list row,
        api_file row csv_reader file limit st = FileReply row file rows true ->
        lookup_in (csv_dir st) file = None
        /\ exists f : csv_file,
            lookup_in (saved_dir st) file = Some f
            /\ rows = default [] (head_of (Some f) limit))
  /\ (forall f : csv_file,
        lookup_in (csv_dir st) file = Some f ->
        api_file row csv_reader file limit st
        = FileReply row file (default [] (head_of (Some f) limit)) false).
Proof.
  unfold api_file.
  destruct (lookup_in (csv_dir st) file) as [f|];
    [|destruct (lookup_in (saved_dir st) file) as [g|]].
  - split; [split; [done | by intros [? _]]|]. split; [done|].
    by intros ? [= <-].
  - split; [split; [done | by intros [_ ?]]|]. split; [|done].
    intros rows [= <-]. split; [done|]. by exists g.
  - split; [done|]. split; done.
Qed.

Lemma first_nonempty_found (dir : gmap string csv_file) (limit : Z)
    (candidates : list file_info) (file : string) (rows : list row) :
  first_nonempty row csv_reader dir limit candidates = (Some file, rows) ->
  exists (pre post : list file_info) (fi : file_info),
    candidates = pre ++ fi :: post /\ name fi = file
    /\ good_candidate row csv_reader dir limit fi rows
    /\ forall (x : file_info) (r : list row),
        x ∈ pre -> ~ good_candidate row csv_reader dir limit x r.
Proof.
  induction candidates as [|fi rest IH]; [done|]. cbn [first_nonempty].
  assert (Hskip :
    (forall r : list row, ~ good_candidate row csv_reader dir limit fi r) ->
    first_nonempty row csv_reader dir limit rest = (Some file, rows) ->
    exists (pre post : list file_info) (fi0 : file_info),
      fi :: rest = pre ++ fi0 :: post /\ name fi0 = file
      /\ good_candidate row csv_reader dir limit fi0 rows
      /\ forall (x : file_info) (r : list row),
          x ∈ pre -> ~ good_candidate row csv_reader dir limit x r).
  { intros Hbad Hrest.
    destruct (IH Hrest) as (pre & post & fi0 & -> & Hn & Hg & Hpre).
    exists (fi :: pre), post, fi0. repeat split; try done.
    intros x r Hx. apply elem_of_cons in Hx as [-> | Hx]; [apply Hbad | by apply Hpre]. }
  destruct (dir !! name fi) as [f|] eqn:Hf.
  - destruct (Nat.eqb_spec (String.length (content f)) 0) as [Hz|Hnz].
    + apply Hskip. intros r (f' & Hf' & Hc & _). rewrite Hf in Hf'.
      injection Hf' as <-. by destruct (content f).
    + destruct (head_of (Some f) limit) as [[|r rows']|] eqn:Hh.
      * apply Hskip. intros r (f' & Hf' & _ & Hr & Hne).
        rewrite Hf in Hf'. injection Hf' as <-. congruence.
      * intros [= <- <-]. exists [], rest, fi. repeat split; try done.
        -- exists f. repeat split; try done.
           intros Hc. by rewrite Hc in Hnz.
        -- intros x r0 Hx. by apply elem_of_nil in Hx.
      * apply Hskip. intros r (f' & Hf' & _ & Hr & _).
        rewrite Hf in Hf'. injection Hf' as <-. congruence.
  - apply Hskip. intros r (f' & Hf' & _). congruence.
Qed.

Lemma first_nonempty_none (dir : gmap string csv_file) (limit : Z)
    (candidates : list file_info) (rows : list row) :
  first_nonempty row csv_reader dir limit candidates = (None, rows) ->
  rows = [].
Proof.
  induction candidates as [|fi rest IH]; [by intros [= <-]|].
  cbn [first_nonempty].
  destruct (dir !! name fi) as [f|]; [|done].
  destruct (_ =? _)%nat; [done|].
  by destruct (head_of (Some f) limit) as [[|r rows']|].
Qed.

(** The candidates are entries of the listing. *)
Lemma latest_candidates (clock : nat -> Q) (limit : Z) (skip_newest : bool)
    (st : Storage) (file : string) (rows : list row) :
  latest_nonempty_rows row csv_reader clock limit skip_newest st
  = (Some file, rows) ->
  exists (dir : gmap string csv_file) (candidates : list file_info),
    csv_dir st = Some dir
    /\ first_nonempty row csv_reader dir limit candidates = (Some file, rows)
    /\ (forall fi : file_info,
          fi ∈ candidates -> fi ∈ list_csv_files clock false 10 st)
    /\ (skip_newest = false -> candidates = list_csv_files clock false 10 st).
Proof.
  unfold latest_nonempty_rows.
  destruct (csv_dir st) as [dir|] eqn:Hdir;
    [|unfold list_csv_files; by rewrite Hdir].
  destruct (list_csv_files clock false 10 st) as [|newest older] eqn:Hl; [done|].
  cbn [from_option id]. intros H. exists dir. eexists. split; [done|].
  split; [exact H|]. split.
  - intros fi Hfi. destruct skip_newest; [|done].
    destruct older; [done | by right].
  - by intros ->.
Qed.

(** X23. What [latest_nonempty_rows] returns: with a name, the rows
    are not empty and are what [read_csv_head] gives for the file of
    that name, which is a matching file of the capture directory, not
    empty and not older than ten minutes; without a name, no rows. *)
Theorem latest_nonempty_rows_found (clock : nat -> Q) (limit : Z)
    (skip_newest : bool) (st : Storage) :
  (forall (file : string) (rows : list row),
      latest_nonempty_rows row csv_reader clock limit skip_newest st
      = (Some file, rows) ->
      rows <> []
      /\ exists (dir : gmap string csv_file) (f : csv_file),
          csv_dir st = Some dir /\ dir !! file = Some f
          /\ is_csv file = true /\ content f <> ""
          /\ (cutoff_time (clock O) 10 <= mtime f)%Q
          /\ head_of (Some f) limit = Some rows)
  /\ forall rows : list row,
      latest_nonempty_rows row csv_reader clock limit skip_newest st
      = (None, rows) ->
      rows = [].
Proof.
  split.
  - intros file rows H.
    apply latest_candidates in H as (dir & candidates & Hdir & Hfirst & Hsub & _).
    apply first_nonempty_found in Hfirst
      as (pre & post & fi & -> & Hname & (f & Hf & Hc & Hh & Hne) & _).
    split; [done|]. exists dir, f. rewrite Hname in Hf.
    assert (Hin : fi ∈ list_csv_files clock false 10 st).
    { apply Hsub, elem_of_app. right. left. }
    assert (Hsaved : saved fi = false).
    { rewrite (list_csv_files_perm clock false 10 st dir Hdir) in Hin.
      cbn zeta in Hin. rewrite app_nil_r in Hin.
      apply list_elem_of_filter in Hin as [_ Hin].
      apply (elem_of_imap_info clock false 1) in Hin as (i & e & _ & ->). done. }
    destruct (proj1 (listed_capture_file clock false 10 st dir file Hdir))
      as (f' & Hf' & Hcsv & Hle); [by exists fi|].
    rewrite Hf in Hf'. injection Hf' as <-.
    repeat split; try done. by apply Qle_bool_iff.
  - intros rows. unfold latest_nonempty_rows.
    destruct (list_csv_files clock false 10 st) as [|newest older];
      [by intros [= <-]|].
    apply first_nonempty_none.
Qed.

(** X24. [api_latest] returns the newest of the capture files that
    qualify: no matching file of the capture directory that is not
    empty, not older than ten minutes and gives rows is newer than the
    file it names. *)
Theorem api_latest_most_recent (clock : nat -> Q) (limit : Z) (st : Storage)
    (dir : gmap string csv_file) (file other : string) (f g : csv_file)
    (rows others : list row) :
  api_latest row csv_reader clock limit st = (Some file, rows) ->
  csv_dir st = Some dir ->
  dir !! file = Some f ->
  dir !! other = Some g ->
  is_csv other = true ->
  (cutoff_time (clock O) 10 <= mtime g)%Q ->
  content g <> "" ->
  head_of (Some g) limit = Some others ->
  others <> [] ->
  (mtime g <= mtime f)%Q.
Proof.
  intros H Hdir Hf Hg Hcsv Hle Hc Hh Hne. unfold api_latest in H.
  apply latest_candidates in H as (dir' & candidates & Hdir' & Hfirst & _ & Hall).
  assert (dir' = dir) as -> by congruence.
  specialize (Hall eq_refl).
  apply first_nonempty_found in Hfirst
    as (pre & post & fi & Hcands & Hname & (f' & Hf' & _) & Hpre).
  rewrite Hname, Hf in Hf'. injection Hf' as <-.
  (* the entry of [g] in the listing *)
  destruct (proj2 (listed_capture_file clock false 10 st dir other Hdir))
    as (gi & Hgi & Hgname & Hgsaved).
  { exists g. repeat split; try done. by apply Qle_bool_iff. }
  assert (Hmt : forall x : file_info,
    x ∈ list_csv_files clock false 10 st ->
    forall h : csv_file, dir !! name x = Some h -> info_mtime x = mtime h).
  { intros x Hx h Hh'.
    rewrite (list_csv_files_perm clock false 10 st dir Hdir) in Hx.
    cbn zeta in Hx. rewrite app_nil_r in Hx.
    apply list_elem_of_filter in Hx as [_ Hx].
    apply (elem_of_imap_info clock false 1) in Hx as (i & e & Hi & ->).
    apply list_elem_of_lookup_2, elem_of_glob_csv_sorted in Hi as [_ He].
    cbn [name info_of info_mtime] in *. congruence. }
  assert (Hfi : fi ∈ list_csv_files clock false 10 st).
  { rewrite <- Hall, Hcands. apply elem_of_app. right. left. }
  rewrite <- (Hmt gi Hgi g) by (by rewrite Hgname).
  rewrite <- (Hmt fi Hfi f) by (by rewrite Hname).
  pose proof (listing_sorted_helper clock false 10 st) as Hsorted.
  rewrite <- Hall, Hcands in Hgi, Hsorted.
  apply StronglySorted_app in Hsorted as (_ & _ & Hsorted).
  apply StronglySorted_cons in Hsorted as [Hafter _].
  apply elem_of_app in Hgi as [Hgi | Hgi].
  - exfalso. apply (Hpre gi others Hgi). exists g.
    rewrite Hgname. by repeat split.
  - apply elem_of_cons in Hgi as [-> | Hgi]; [apply Qle_refl|].
    rewrite Forall_forall in Hafter. by apply Hafter.
Qed.

End RowsRead.

(** * Further properties of the blacklist *)

Lemma string_app_nil_r (a : string) : a +:+ "" = a.
Proof.
  induction a as [|c a IH]; [done|].
  change (String c (a +:+ "") = String c a). by rewrite IH.
Qed.

Lemma string_app_assoc (a b c : string) : (a +:+ b) +:+ c = a +:+ b +:+ c.
Proof.
  induction a as [|x a IH]; [done|].
  change (String x ((a +:+ b) +:+ c) = String x (a +:+ b +:+ c)).
  by rewrite IH.
Qed.

Lemma extends_refl (st : Blacklist) : extends st st.
Proof.
  split; [done|]. split; [exists ""; by rewrite string_app_nil_r|].
  split; [lia|]. split; [lia | done].
Qed.

Lemma extends_trans (a b c : Blacklist) :
  extends a b -> extends b c -> extends a c.
Proof.
  intros (Hs1 & (m1 & Hf1) & Ha1 & Hr1 & Ho1) (Hs2 & (m2 & Hf2) & Ha2 & Hr2 & Ho2).
  split; [set_solver|].
  split; [exists (m1 +:+ m2); by rewrite Hf2, Hf1, string_app_assoc|].
  split; [lia|]. split; [lia | auto].
Qed.

Lemma extends_print (text : string) (st : Blacklist) :
  extends st (print text st).
Proof.
  unfold extends, appends, reloads, print. cbn [blacklisted_ips blacklist_txt actions].
  rewrite !filter_app. cbn. rewrite !app_nil_r.
  split; [done|]. split; [exists ""; by rewrite string_app_nil_r|].
  split; [lia|]. split; [lia | done].
Qed.

Lemma untouched_refl (st : Blacklist) : untouched st st.
Proof. by repeat split. Qed.

Lemma untouched_trans (a b c : Blacklist) :
  untouched a b -> untouched b c -> untouched a c.
Proof.
  intros (H1 & H2 & H3 & H4) (H1' & H2' & H3' & H4').
  split; [congruence|]. split; [congruence|]. split; congruence.
Qed.

Lemma untouched_print (text : string) (st : Blacklist) :
  untouched st (print text st).
Proof.
  unfold untouched, appends, reloads, print.
  cbn [blacklisted_ips blacklist_txt actions].
  rewrite !filter_app. cbn. rewrite !app_nil_r.
  split; [done|]. split; [done|]. split; done.
Qed.

Lemma untouched_add_fails (e : string) (ip : string) (st : Blacklist) :
  ip ∉ blacklisted_ips st ->
  add_ip_to_blacklist (Some (AppendFails e)) ip st
  = print ("[ERROR] Failed to blacklist " +:+ ip +:+ ": " +:+ e) st.
Proof. intros Hout. unfold add_ip_to_blacklist. by rewrite decide_False. Qed.

Lemma elem_of_add (outcome : option fault) (ip : string) (st : Blacklist) :
  append_fails outcome = false \/ ip ∈ blacklisted_ips st ->
  ip ∈ blacklisted_ips (add_ip_to_blacklist outcome ip st).
Proof.
  intros H. unfold add_ip_to_blacklist.
  destruct (decide (ip ∈ blacklisted_ips st)) as [Hin|Hout]; [done|].
  destruct H as [H|H]; [|done].
  destruct outcome as [[e|e]|]; [done|..]; cbn [blacklisted_ips]; set_solver.
Qed.

Lemma extends_add (outcome : option fault) (ip : string) (st : Blacklist) :
  extends st (add_ip_to_blacklist outcome ip st).
Proof.
  destruct (decide (ip ∈ blacklisted_ips st)) as [Hin|Hout].
  { unfold add_ip_to_blacklist. rewrite decide_True by done.
    apply (extends_print _ st). }
  destruct (append_fails outcome) eqn:Hfails.
  { destruct outcome as [[e|e]|]; try discriminate.
    rewrite untouched_add_fails by done. apply extends_print. }
  assert (Hadd : add_ip_to_blacklist outcome ip st
    = {| blacklisted_ips := {[ip]} ∪ blacklisted_ips st;
         blacklist_txt := blacklist_txt st +:+ ip +:+ String LF "";
         actions := actions st
           ++ [Append (ip +:+ String LF "");
               Print ("[BLACKLIST] IP " +:+ ip +:+ " has been added to "
                      +:+ BLACKLIST_FILE +:+ ".");
               Run "sudo suricatasc -c 'reload-rules'"]
           ++ match outcome with
              | Some (ReloadFails e) =>
                  [Print ("[ERROR] Failed to blacklist " +:+ ip
                          +:+ ": " +:+ e)]
              | _ => []
              end |}).
  { unfold add_ip_to_blacklist. rewrite decide_False by done.
    by destruct outcome as [[e|e]|]. }
  rewrite Hadd. unfold extends, appends, reloads.
  cbn [blacklisted_ips blacklist_txt actions].
  match goal with
  | |- context [actions st ++ ?l] => set (new := l)
  end.
  assert (Ha : length (filter is_append new) = 1%nat)
    by (subst new; by destruct outcome as [[e|e]|]).
  assert (Hr : length (filter is_run new) = 1%nat)
    by (subst new; by destruct outcome as [[e|e]|]).
  rewrite !filter_app, !length_app, Ha, Hr.
  assert (Hsize : size ({[ip]} ∪ blacklisted_ips st)
                  = S (size (blacklisted_ips st))).
  { rewrite size_union by set_solver. by rewrite size_singleton. }
  rewrite Hsize.
  split; [set_solver|]. split; [by exists (ip +:+ String LF "")|].
  split; [lia|]. split; [lia|].
  intros Hon ip' Hip'. apply elem_of_union in Hip' as [Hip' | Hip'].
  - apply elem_of_singleton in Hip' as ->.
    exists (blacklist_txt st), "". by rewrite string_app_nil_r.
  - destruct (Hon ip' Hip') as (before & after & ->).
    exists before, (after +:+ ip +:+ String LF "").
    by rewrite !string_app_assoc.
Qed.

(** X25. A call of [add_ip_to_blacklist], whatever goes wrong inside
    it. The address is in the set afterwards when it was there before
    or when the append does not raise, whether or not the reload
    does; when the append raises for an address that was not in the
    set, the set and the file stay as they are and nothing is
    appended and no reload is run. In every case the set has only
    grown and the file has only been added to at its end; there is
    one append and one reload more exactly when the set is one
    address larger; and every address of the set has its line in the
    file if that was so before. *)
Theorem add_keeps_file_ahead (outcome : option fault) (ip : string)
    (st : Blacklist) :
  let st' := add_ip_to_blacklist outcome ip st in
  (append_fails outcome = false \/ ip ∈ blacklisted_ips st ->
   ip ∈ blacklisted_ips st')
  /\ (append_fails outcome = true -> ip ∉ blacklisted_ips st ->
      ip ∉ blacklisted_ips st' /\ untouched st st')
  /\ blacklisted_ips st ⊆ blacklisted_ips st'
  /\ (exists more : string, blacklist_txt st' = blacklist_txt st +:+ more)
  /\ (appends st' + size (blacklisted_ips st)
      = appends st + size (blacklisted_ips st'))%nat
  /\ (reloads st' + size (blacklisted_ips st)
      = reloads st + size (blacklisted_ips st'))%nat
  /\ (on_file st -> on_file st').
Proof.
  intros st'. split; [apply elem_of_add|]. split; [|apply extends_add].
  intros Hfails Hout. subst st'.
  destruct outcome as [[e|e]|]; try discriminate.
  rewrite untouched_add_fails by done.
  split; [done | apply untouched_print].
Qed.

Lemma extends_forward_verdicts (reload : nat -> option fault)
    (source_ips : list string) (idx : nat) (predictions : list Z)
    (st : Blacklist) :
  extends st (forward_verdicts reload source_ips idx predictions st).
Proof.
  revert idx st. induction predictions as [|p rest IH]; intros idx st;
    cbn [forward_verdicts]; [apply extends_refl|].
  eapply extends_trans; [|apply IH].
  destruct (label_of p).
  - eapply extends_trans; [apply extends_print | apply extends_add].
  - apply extends_print.
Qed.

Lemma extends_warn_missing (cols : list string) (st : Blacklist) :
  extends st (warn_missing cols st).
Proof.
  unfold warn_missing. revert st.
  induction cols as [|c rest IH]; intros st; cbn [fold_left];
    [apply extends_refl|].
  eapply extends_trans; [apply extends_print | apply IH].
Qed.

Section Predicted.

Variable X : Type.
Variable read_csv : string -> string + dataframe X.
Variable predict : X -> list Z.

Lemma extends_predict_and_forward (reload : nat -> option fault)
    (input_data : option X) (source_ips : option (list string))
    (st : Blacklist) :
  extends st (predict_and_forward X predict reload input_data source_ips st).
Proof.
  unfold predict_and_forward.
  destruct input_data, source_ips;
    [apply extends_forward_verdicts | apply extends_print..].
Qed.

Lemma extends_process_and_predict (reload : nat -> option fault)
    (csv_file : option string) (input_data : option X)
    (source_ips : option (list string)) (st : Blacklist) :
  extends st (process_and_predict X read_csv predict reload csv_file
                input_data source_ips st).
Proof.
  unfold process_and_predict, failed.
  destruct csv_file as [[|c path]|];
    [apply extends_predict_and_forward| |apply extends_predict_and_forward].
  destruct (read_csv (String c path)) as [e|df]; [apply extends_print|].
  destruct (astype df) as [e|data].
  - eapply extends_trans; [apply extends_warn_missing | apply extends_print].
  - eapply extends_trans;
      [apply extends_warn_missing | apply extends_predict_and_forward].
Qed.

(** X26. Whatever [process_and_predict] is given and whatever the
    model predicts, the set only grows and the file is only added to
    at its end, with one line appended and one reload run for each
    address that enters the set; and every address of the set has its
    line in the file if that was so before. *)
Theorem process_and_predict_accounts (reload : nat -> option fault)
    (csv_file : option string) (input_data : option X)
    (source_ips : option (list string)) (st : Blacklist) :
  let st' := process_and_predict X read_csv predict reload csv_file
               input_data source_ips st in
  blacklisted_ips st ⊆ blacklisted_ips st'
  /\ (exists more : string, blacklist_txt st' = blacklist_txt st +:+ more)
  /\ (appends st' + size (blacklisted_ips st)
      = appends st + size (blacklisted_ips st'))%nat
  /\ (reloads st' + size (blacklisted_ips st)
      = reloads st + size (blacklisted_ips st'))%nat
  /\ (on_file st -> on_file st').
Proof. apply extends_process_and_predict. Qed.

End Predicted.

Lemma untouched_warn_missing (cols : list string) (st : Blacklist) :
  untouched st (warn_missing cols st).
Proof.
  unfold warn_missing. revert st.
  induction cols as [|c rest IH]; intros st; cbn [fold_left];
    [apply untouched_refl|].
  eapply untouched_trans; [apply untouched_print | apply IH].
Qed.

Lemma untouched_benign (reload : nat -> option fault)
    (source_ips : list string) (idx : nat) (predictions : list Z)
    (st : Blacklist) :
  Forall (fun p => label_of p = None) predictions ->
  untouched st (forward_verdicts reload source_ips idx predictions st).
Proof.
  intros Hall. revert idx st.
  induction Hall as [|p rest Hp _ IH]; intros idx st; cbn [forward_verdicts];
    [apply untouched_refl|].
  rewrite Hp. eapply untouched_trans; [apply untouched_print | apply IH].
Qed.

Lemma blacklisted_ips_add (outcome : option fault) (ip : string)
    (st : Blacklist) :
  blacklisted_ips (add_ip_to_blacklist outcome ip st)
  ⊆ {[ip]} ∪ blacklisted_ips st.
Proof.
  unfold add_ip_to_blacklist. destruct (decide _);
    [|destruct outcome as [[e|e]|]]; cbn [blacklisted_ips]; set_solver.
Qed.

Lemma wildcard_out_of_verdicts (reload : nat -> option fault)
    (source_ips : list string) (idx : nat) (predictions : list Z)
    (st : Blacklist) :
  "0.0.0.0" ∉ blacklisted_ips st ->
  "0.0.0.0" ∉ blacklisted_ips
                (forward_verdicts reload source_ips idx predictions st).
Proof.
  revert idx st. induction predictions as [|p rest IH]; intros idx st Hout;
    cbn [forward_verdicts]; [done|].
  apply IH. destruct (label_of p); [|done].
  intros Hin. apply blacklisted_ips_add in Hin. cbn [print blacklisted_ips] in Hin.
  destruct (decide (default FALLBACK_IP (source_ips !! idx) = "0.0.0.0"))
    as [Heq|Hne].
  - assert (FALLBACK_IP <> "0.0.0.0") by done. set_solver.
  - set_solver.
Qed.

Section Predicted2.

Variable X : Type.
Variable read_csv : string -> string + dataframe X.

(** X27. With the model of the module, which predicts [-1] for every
    row, [process_and_predict] blacklists nothing, whatever it is
    given: the set and the file stay as they are, and nothing is
    appended and no reload is run. *)
Theorem dummy_model_never_blacklists (len : X -> nat)
    (reload : nat -> option fault) (csv_file : option string)
    (input_data : option X) (source_ips : option (list string))
    (st : Blacklist) :
  let st' := process_and_predict X read_csv (DummyModel_predict len) reload
               csv_file input_data source_ips st in
  blacklisted_ips st' = blacklisted_ips st
  /\ blacklist_txt st' = blacklist_txt st
  /\ appends st' = appends st
  /\ reloads st' = reloads st.
Proof.
  assert (Hforward : forall (data : option X) (ips : option (list string))
                            (s : Blacklist),
    untouched s (predict_and_forward X (DummyModel_predict len) reload data ips s)).
  { intros data ips s. unfold predict_and_forward.
    destruct data as [d|], ips as [l|]; try apply untouched_print.
    apply untouched_benign. unfold DummyModel_predict.
    apply Forall_replicate. done. }
  cbn zeta. unfold process_and_predict, failed.
  destruct csv_file as [[|c path]|]; [apply Hforward| |apply Hforward].
  destruct (read_csv (String c path)) as [e|df]; [apply untouched_print|].
  destruct (astype df) as [e|data].
  - eapply untouched_trans; [apply untouched_warn_missing | apply untouched_print].
  - eapply untouched_trans; [apply untouched_warn_missing | apply Hforward].
Qed.

(** X28. Whatever the model predicts, [process_and_predict] does not
    put the address 0.0.0.0 into the set: a malicious row with that
    source address blacklists 10.81.50.100 in its place. *)
Theorem wildcard_never_blacklisted (predict : X -> list Z)
    (reload : nat -> option fault) (csv_file : option string)
    (input_data : option X) (source_ips : option (list string))
    (st : Blacklist) :
  "0.0.0.0" ∉ blacklisted_ips st ->
  "0.0.0.0" ∉ blacklisted_ips
                (process_and_predict X read_csv predict reload csv_file
                   input_data source_ips st).
Proof.
  intros Hout.
  assert (Hprint : forall (t : string) (s : Blacklist),
            blacklisted_ips (print t s) = blacklisted_ips s) by done.
  assert (Hwarn : forall (cols : list string) (s : Blacklist),
            blacklisted_ips (warn_missing cols s) = blacklisted_ips s).
  { intros cols s. apply (untouched_warn_missing cols s). }
  assert (Hforward : forall (data : option X) (ips : option (list string))
                            (s : Blacklist),
    "0.0.0.0" ∉ blacklisted_ips s ->
    "0.0.0.0" ∉ blacklisted_ips (predict_and_forward X predict reload data ips s)).
  { intros data ips s Hs. unfold predict_and_forward.
    destruct data as [d|], ips as [l|]; try done.
    by apply wildcard_out_of_verdicts. }
  unfold process_and_predict, failed.
  destruct csv_file as [[|c path]|]; [by apply Hforward| |by apply Hforward].
  destruct (read_csv (String c path)) as [e|df]; [done|].
  destruct (astype df) as [e|data].
  - by rewrite Hprint, Hwarn.
  - apply Hforward. by rewrite Hwarn.
Qed.

End Predicted2.

(** * The further properties on the sample data *)

Lemma stale_cursor_reads_nothing_sample :
  eve (files Fixture.cut) = Some ""
  /\ (String.length "" <= last_pos_of Fixture.cut)%nat
  /\ lines_read Fixture.cut = []
  /\ (store_new_alerts Sample.loads Sample.clock Sample.dice Fixture.cut).1
     = 0%nat.
Proof.
  assert (Hle : (String.length "" <= last_pos_of Fixture.cut)%nat)
    by by_computation.
  split; [reflexivity|]. split; [exact Hle|].
  destruct (stale_cursor_reads_nothing Sample.loads Sample.clock Sample.dice
              Fixture.cut "" eq_refl Hle) as [Hlines Hrun].
  split; [exact Hlines|]. rewrite Hrun. reflexivity.
Defined.


Lemma history_within_cap_sample :
  (length (history_of Sample.fresh) <= Z.to_nat 10000)%nat
  /\ (length (history_of (store_new_alerts Sample.loads Sample.clock
                            Sample.dice Sample.fresh).2)
      <= Z.to_nat 10000)%nat.
Proof.
  assert (H : (length (history_of Sample.fresh) <= Z.to_nat 10000)%nat)
    by by_computation.
  split; [exact H|].
  apply (proj2 (history_within_cap Sample.loads Sample.clock Sample.dice
                  Sample.fresh) H).
Defined.

Lemma history_append_only_below_cap_sample :
  eve (files Sample.grown)
  = Some (Sample.log +:+ Sample.line_of (Sample.scan "2024-01-01T00:00:07"))
  /\ (length (history_of Sample.grown)
      + length (unique_of Sample.loads Sample.late_clock Sample.late_dice
                  Sample.grown) <= Z.to_nat 10000)%nat
  /\ history_of (store_new_alerts Sample.loads Sample.late_clock
                   Sample.late_dice Sample.grown).2
     = history_of Sample.grown
       ++ unique_of Sample.loads Sample.late_clock Sample.late_dice Sample.grown.
Proof.
  assert (H : (length (history_of Sample.grown)
      + length (unique_of Sample.loads Sample.late_clock Sample.late_dice
                  Sample.grown) <= Z.to_nat 10000)%nat) by by_computation.
  split; [reflexivity|]. split; [exact H|].
  apply (proj1 (history_append_only_below_cap Sample.loads Sample.late_clock
                  Sample.late_dice Sample.grown _ eq_refl H)).
Defined.

Lemma stored_alert_keeps_fields_sample :
  Sample.first_alert
    ∈ history_of (store_new_alerts Sample.loads Sample.clock Sample.dice
                    Sample.fresh).2
  /\ (Sample.first_alert ∈ history_of Sample.fresh
      \/ exists (i : nat) (line : string) (obj : dict),
          lines_read Sample.fresh !! i = Some line
          /\ Sample.loads (strip line) = Some (JObj obj)
          /\ truthy (dict_get_default obj "alert" JNull) = true
          /\ (forall k : string,
                k <> "stored_at" -> k <> "_fingerprint" ->
                dict_get Sample.first_alert k = dict_get obj k)
          /\ dict_get Sample.first_alert "stored_at"
             = Some (JStr (Sample.clock i))
          /\ dict_get Sample.first_alert "_fingerprint"
             = Some (JStr (generate_alert_fingerprint (Sample.dice i)
                             (dict_set obj "stored_at" (JStr (Sample.clock i)))))).
Proof.
  assert (H : Sample.first_alert
    ∈ history_of (store_new_alerts Sample.loads Sample.clock Sample.dice
                    Sample.fresh).2).
  { vm_compute. apply list_elem_of_here. }
  split; [exact H|].
  apply (stored_alert_keeps_fields Sample.loads Sample.clock Sample.dice
           Sample.fresh Sample.first_alert H).
Defined.

Lemma digest_fingerprint_length_sample :
  alert_descriptor Sample.record
  = Some [ ("severity", JInt 2); ("signature", JStr "ET SCAN Nmap");
           ("signature_id", JInt 2000537) ]
  /\ String.length (generate_alert_fingerprint 5 Sample.record) = 32%nat.
Proof.
  split; [reflexivity|].
  apply (digest_fingerprint_length 5 Sample.record _ eq_refl).
Defined.

Lemma fallback_fingerprint_apart_sample :
  alert_descriptor Sample.record
  = Some [ ("severity", JInt 2); ("signature", JStr "ET SCAN Nmap");
           ("signature_id", JInt 2000537) ]
  /\ alert_descriptor [("alert", JStr "yes")] = None
  /\ generate_alert_fingerprint 5 Sample.record
     <> generate_alert_fingerprint 6 [("alert", JStr "yes")].
Proof.
  split; [reflexivity|]. split; [reflexivity|].
  apply (proj2 (fallback_fingerprint_apart 5 6 Sample.record
                  [("alert", JStr "yes")] _ eq_refl eq_refl)).
Defined.

Lemma read_eve_alerts_positive_limit_sample :
  0 < 1
  /\ (read_eve_alerts Sample.loads Sample.late_clock Sample.late_dice 1
        Sample.grown).1
     = keep_last (Z.to_nat 1)
         (history_of (store_new_alerts Sample.loads Sample.late_clock
                        Sample.late_dice Sample.grown).2).
Proof.
  assert (H : 0 < 1) by lia. split; [exact H|].
  apply (proj1 (read_eve_alerts_positive_limit Sample.loads Sample.late_clock
                  Sample.late_dice 1 Sample.grown H)).
Defined.

Lemma read_eve_alerts_without_limit_sample :
  0 <= 0
  /\ (read_eve_alerts Sample.loads Sample.late_clock Sample.late_dice 0
        Sample.grown).1
     = history_of (store_new_alerts Sample.loads Sample.late_clock
                     Sample.late_dice Sample.grown).2.
Proof.
  assert (H : 0 <= 0) by lia. split; [exact H|].
  apply (proj2 (read_eve_alerts_without_limit Sample.loads Sample.late_clock
                  Sample.late_dice 0 Sample.grown H) eq_refl).
Defined.


(** The reading of the history on the sample log: one alert with a
    limit of 1, both with a limit of 0, and after a clear the whole
    log again. *)
Example read_eve_alerts_sample :
  length (read_eve_alerts Sample.loads Sample.late_clock Sample.late_dice 1
            Sample.grown).1 = 1%nat
  /\ length (read_eve_alerts Sample.loads Sample.late_clock Sample.late_dice 0
               Sample.grown).1 = 2%nat
  /\ length (read_eve_alerts Sample.loads Sample.late_clock Sample.late_dice
               (-1) Sample.grown).1 = 1%nat
  /\ (store_new_alerts Sample.loads Sample.late_clock Sample.late_dice
        (api_clear_alerts Sample.grown).2).1 = 2%nat.
Proof. vm_compute. done. Qed.

Lemma listing_saved_files_sample :
  csv_dir Fixture.desk = Some Fixture.recent
  /\ saved_dir Fixture.desk = Some Fixture.kept
  /\ Fixture.kept !! "k.csv" = Some (mkCsv 100%Q Fixture.two_rows)
  /\ is_csv "k.csv" = true
  /\ exists fi : file_info,
      fi ∈ list_csv_files Sample.timer true 10 Fixture.desk
      /\ name fi = "k.csv" /\ saved fi = true /\ info_mtime fi = 100%Q.
Proof.
  split; [reflexivity|]. split; [reflexivity|]. split; [reflexivity|].
  split; [reflexivity|].
  apply (proj1 (listing_saved_files Sample.timer 10 Fixture.desk Fixture.recent
                  Fixture.kept "k.csv" (mkCsv 100%Q Fixture.two_rows)
                  eq_refl eq_refl eq_refl eq_refl)).
Defined.

Lemma cleanup_accounts_for_every_file_sample :
  csv_dir Fixture.desk = Some Fixture.recent
  /\ saved_dir (cleanup_old_csvs 1500%Q 10 Fixture.desk).2
     = saved_dir Fixture.desk.
Proof.
  split; [reflexivity|].
  apply (proj1 (cleanup_accounts_for_every_file 1500%Q 10 Fixture.desk
                  Fixture.recent eq_refl)).
Defined.


Lemma cleanup_keeps_listing_sample :
  (exists fi : file_info,
      fi ∈ list_csv_files Sample.timer false 10 Fixture.desk
      /\ name fi = "b.csv" /\ saved fi = false)
  /\ exists fi : file_info,
      fi ∈ list_csv_files Sample.timer false 10
             (cleanup_old_csvs (Sample.timer O) 10 Fixture.desk).2
      /\ name fi = "b.csv" /\ saved fi = false.
Proof.
  assert (H : exists fi : file_info,
      fi ∈ list_csv_files Sample.timer false 10 Fixture.desk
      /\ name fi = "b.csv" /\ saved fi = false).
  { apply (proj2 (listed_capture_file Sample.timer false 10 Fixture.desk
                    Fixture.recent "b.csv" eq_refl)).
    exists (mkCsv 900%Q Fixture.two_rows).
    split; [reflexivity|]. split; reflexivity. }
  split; [exact H|].
  apply (proj1 (cleanup_keeps_listing Sample.timer false 10 Fixture.desk
                  "b.csv") H).
Defined.

Lemma saved_file_survives_cleanup_sample :
  api_save_csv "b.csv" Fixture.desk
  = (Reply "File saved successfully" "b.csv" true,
     (api_save_csv "b.csv" Fixture.desk).2)
  /\ exists (rows : list string) (is_saved : bool),
      api_file string Fixture.reader "b.csv" 5
        (cleanup_old_csvs 2000%Q 10 (api_save_csv "b.csv" Fixture.desk).2).2
      = FileReply string "b.csv" rows is_saved.
Proof.
  assert (H : api_save_csv "b.csv" Fixture.desk
    = (Reply "File saved successfully" "b.csv" true,
       (api_save_csv "b.csv" Fixture.desk).2)) by reflexivity.
  split; [exact H|].
  apply (saved_file_survives_cleanup string Fixture.reader "b.csv"
           "File saved successfully" Fixture.desk _ 2000%Q 10 5 H).
Defined.

(** The sample capture after a save and a cleanup that takes every
    capture file out: it is served from the saved files, with its two
    rows. *)
Example saved_file_served_sample :
  api_file string Fixture.reader "b.csv" 5
    (cleanup_old_csvs 2000%Q 10 (api_save_csv "b.csv" Fixture.desk).2).2
  = FileReply string "b.csv"
      ["1,2" +:+ String LF ""; "3,4" +:+ String LF ""] true
  /\ (cleanup_old_csvs 2000%Q 10 (api_save_csv "b.csv" Fixture.desk).2).1
     = 4%nat.
Proof. vm_compute. done. Qed.

Lemma unsave_after_save_sample :
  Fixture.recent !! "b.csv" = Some (mkCsv 900%Q Fixture.two_rows)
  /\ Fixture.kept !! "b.csv" = None
  /\ api_unsave_csv "b.csv" (api_save_csv "b.csv" Fixture.desk).2
     = (Reply "File removed from saved" "b.csv" false, Fixture.desk).
Proof.
  split; [reflexivity|]. split; [reflexivity|].
  apply (unsave_after_save "b.csv" Fixture.recent Fixture.kept
           (mkCsv 900%Q Fixture.two_rows) eq_refl eq_refl).
Defined.

Lemma unsave_only_that_file_sample :
  lookup_in (saved_dir Fixture.desk) "b.csv" = None
  /\ (api_unsave_csv "b.csv" Fixture.desk).2 = Fixture.desk.
Proof.
  assert (H : lookup_in (saved_dir Fixture.desk) "b.csv" = None) by reflexivity.
  split; [exact H|].
  apply (unsave_only_that_file "b.csv" Fixture.desk). exact H.
Defined.

Lemma read_csv_head_bounded_sample :
  Fixture.reader (content (mkCsv 900%Q Fixture.two_rows))
  = Some [Some ("1,2" +:+ String LF ""); Some ("3,4" +:+ String LF "")]
  /\ exists rows : list string,
      read_csv_head string Fixture.reader
        (Some (mkCsv 900%Q Fixture.two_rows)) 1 = Some rows
      /\ (length rows <= Z.to_nat 1)%nat
      /\ (Some <$> rows)
           `prefix_of` [Some ("1,2" +:+ String LF "");
                        Some ("3,4" +:+ String LF "")].
Proof.
  assert (H : Fixture.reader (content (mkCsv 900%Q Fixture.two_rows))
    = Some [Some ("1,2" +:+ String LF ""); Some ("3,4" +:+ String LF "")])
    by reflexivity.
  split; [exact H|].
  destruct (proj2 (read_csv_head_bounded string Fixture.reader
                     (mkCsv 900%Q Fixture.two_rows) 1))
    as (rows & Hrows & Hlen & _ & Hpre).
  exists rows. split; [exact Hrows|]. split; [exact Hlen|]. exact (Hpre _ H).
Defined.

Lemma api_file_precedence_sample :
  lookup_in (csv_dir Fixture.desk) "b.csv" = Some (mkCsv 900%Q Fixture.two_rows)
  /\ api_file string Fixture.reader "b.csv" 5 Fixture.desk
     = FileReply string "b.csv"
         (default [] (read_csv_head string Fixture.reader
                        (Some (mkCsv 900%Q Fixture.two_rows)) 5)) false.
Proof.
  split; [reflexivity|].
  apply (api_file_precedence string Fixture.reader "b.csv" 5 Fixture.desk).
  reflexivity.
Defined.

Lemma latest_nonempty_rows_found_sample :
  latest_nonempty_rows string Fixture.reader Sample.timer 5 true Fixture.desk
  = (Some "b.csv", ["1,2" +:+ String LF ""; "3,4" +:+ String LF ""])
  /\ exists (dir : gmap string csv_file) (f : csv_file),
      csv_dir Fixture.desk = Some dir /\ dir !! "b.csv" = Some f
      /\ is_csv "b.csv" = true /\ content f <> ""
      /\ (cutoff_time (Sample.timer O) 10 <= mtime f)%Q
      /\ read_csv_head string Fixture.reader (Some f) 5
         = Some ["1,2" +:+ String LF ""; "3,4" +:+ String LF ""].
Proof.
  assert (H : latest_nonempty_rows string Fixture.reader Sample.timer 5 true
                Fixture.desk
    = (Some "b.csv", ["1,2" +:+ String LF ""; "3,4" +:+ String LF ""]))
    by (vm_compute; reflexivity).
  split; [exact H|].
  apply (proj1 (latest_nonempty_rows_found string Fixture.reader Sample.timer
                  5 true Fixture.desk) _ _ H).
Defined.

Lemma api_latest_most_recent_sample :
  api_latest string Fixture.reader Sample.timer 5 Fixture.desk
  = (Some "b.csv", ["1,2" +:+ String LF ""; "3,4" +:+ String LF ""])
  /\ Fixture.recent !! "d.csv" = Some (mkCsv 850%Q Fixture.two_rows)
  /\ (mtime (mkCsv 850%Q Fixture.two_rows)
      <= mtime (mkCsv 900%Q Fixture.two_rows))%Q.
Proof.
  assert (H : api_latest string Fixture.reader Sample.timer 5 Fixture.desk
    = (Some "b.csv", ["1,2" +:+ String LF ""; "3,4" +:+ String LF ""]))
    by (vm_compute; reflexivity).
  split; [exact H|]. split; [reflexivity|].
  apply (api_latest_most_recent string Fixture.reader Sample.timer 5
           Fixture.desk Fixture.recent "b.csv" "d.csv"
           (mkCsv 900%Q Fixture.two_rows) (mkCsv 850%Q Fixture.two_rows)
           ["1,2" +:+ String LF ""; "3,4" +:+ String LF ""]
           ["1,2" +:+ String LF ""; "3,4" +:+ String LF ""]).
  - exact H.
  - reflexivity.
  - reflexivity.
  - reflexivity.
  - reflexivity.
  - vm_compute. discriminate.
  - discriminate.
  - reflexivity.
  - discriminate.
Defined.

Lemma on_file_listed : on_file Fixture.listed.
Proof.
  intros ip Hip. unfold Fixture.listed in *. cbn [blacklisted_ips] in Hip.
  apply elem_of_singleton in Hip as ->. by exists "", "".
Qed.

Lemma add_keeps_file_ahead_sample :
  on_file Fixture.listed
  /\ on_file (add_ip_to_blacklist (Some (ReloadFails "timeout")) "10.0.0.5"
               Fixture.listed).
Proof.
  split; [exact on_file_listed|].
  apply (add_keeps_file_ahead (Some (ReloadFails "timeout")) "10.0.0.5"
           Fixture.listed).
  exact on_file_listed.
Defined.

Lemma process_and_predict_accounts_sample :
  on_file Fixture.listed
  /\ on_file (process_and_predict nat Fixture.pandas Fixture.alarmist
                Fixture.quiet_reload (Some "capture.csv") None None
                Fixture.listed).
Proof.
  split; [exact on_file_listed|].
  apply (process_and_predict_accounts nat Fixture.pandas Fixture.alarmist
           Fixture.quiet_reload (Some "capture.csv") None None Fixture.listed).
  exact on_file_listed.
Defined.

Lemma wildcard_never_blacklisted_sample :
  "0.0.0.0" ∉ blacklisted_ips Fixture.listed
  /\ "0.0.0.0" ∉ blacklisted_ips
                   (process_and_predict nat Fixture.pandas Fixture.alarmist
                      Fixture.quiet_reload (Some "capture.csv") None None
                      Fixture.listed).
Proof.
  assert (H : "0.0.0.0" ∉ blacklisted_ips Fixture.listed) by by_computation.
  split; [exact H|].
  apply (wildcard_never_blacklisted nat Fixture.pandas Fixture.alarmist
           Fixture.quiet_reload (Some "capture.csv") None None Fixture.listed H).
Defined.

(** The sample frame with a model that takes both rows for port
    scans: the row from 0.0.0.0 blacklists the fallback address, the
    other its own; with the model of the module nothing happens but
    two messages. *)
Example process_and_predict_sample :
  blacklist_txt (process_and_predict nat Fixture.pandas Fixture.alarmist
                   Fixture.quiet_reload (Some "capture.csv") None None
                   Fixture.listed)
  = "10.0.0.9" +:+ String LF "" +:+ "10.81.50.100" +:+ String LF ""
    +:+ "10.0.0.5" +:+ String LF ""
  /\ appends (process_and_predict nat Fixture.pandas Fixture.alarmist
                Fixture.quiet_reload (Some "capture.csv") None None
                Fixture.listed) = 2%nat
  /\ length (actions (process_and_predict nat Fixture.pandas
                        (DummyModel_predict id) Fixture.quiet_reload
                        (Some "capture.csv") None None Fixture.listed))
     = 15%nat.
Proof. vm_compute. done. Qed.

(** The same frame and model when the blacklist file cannot be
    written: nothing enters the set or the file, nothing is appended
    and no reload is run; each malicious row prints its alert and the
    error. *)
Example process_and_predict_read_only_sample :
  untouched Fixture.listed
    (process_and_predict nat Fixture.pandas Fixture.alarmist
       Fixture.read_only (Some "capture.csv") None None Fixture.listed)
  /\ length (actions (process_and_predict nat Fixture.pandas Fixture.alarmist
                        Fixture.read_only (Some "capture.csv") None None
                        Fixture.listed))
     = 17%nat.
Proof.
  split; [|vm_compute; done].
  split; [|split; [|split]]; [|vm_compute; done..].
  apply set_eq. intros x. vm_compute. done.
Qed.
